(** * go-spring: the article store of [main.go]

    A shallow embedding of the HTTP handlers of the article service and of
    its load-or-seed start-up, followed by the properties of the store that
    the specification states.

    The handlers run in a small state monad over a [World]: the two package
    level variables [articles] and [nextID], the wall clock read by
    [time.Now()], the data file on disk, and the trace of the
    synchronisation events ([articlesMutex] operations and [go] statements)
    in program order. Console output ([fmt.Println], [log.Printf]) is left
    out. *)

From stdpp Require Import base list strings.
From Stdlib Require Import ZArith Lia Sorted.
From Stdlib.Strings Require Import Byte Ascii.

Open Scope Z_scope.

(** ** Go's [int] on a 64-bit platform *)

Definition int_min : Z := - 2 ^ 63.
Definition int_max : Z := 2 ^ 63 - 1.

(** Two's complement wrap-around of an arithmetic result. *)
Definition wrap (z : Z) : Z := (z + 2 ^ 63) mod 2 ^ 64 - 2 ^ 63.

Definition in_range (z : Z) : Prop := int_min <= z <= int_max.

(** ** [time.Time], as an instant in nanoseconds *)

Definition Time : Type := Z.
Definition Hour : Z := 3600 * 1000000000.
Definition time_Add (t : Time) (d : Z) : Time := t + d.

(** ** Data model *)

Record Article : Type := mkArticle {
  ID : Z;
  Title : string;
  Desc : string;
  Content : string;
  Created : Time;
  Updated : Time
}.

Definition with_ID (v : Z) (a : Article) : Article :=
  mkArticle v (Title a) (Desc a) (Content a) (Created a) (Updated a).
Definition with_Title (v : string) (a : Article) : Article :=
  mkArticle (ID a) v (Desc a) (Content a) (Created a) (Updated a).
Definition with_Desc (v : string) (a : Article) : Article :=
  mkArticle (ID a) (Title a) v (Content a) (Created a) (Updated a).
Definition with_Content (v : string) (a : Article) : Article :=
  mkArticle (ID a) (Title a) (Desc a) v (Created a) (Updated a).
Definition with_Created (v : Time) (a : Article) : Article :=
  mkArticle (ID a) (Title a) (Desc a) (Content a) v (Updated a).
Definition with_Updated (v : Time) (a : Article) : Article :=
  mkArticle (ID a) (Title a) (Desc a) (Content a) (Created a) v.

(** The [Data interface{}] field of a response holds nothing, one article
    or the whole slice. *)
Inductive Payload : Type :=
  | NoData
  | OneArticle (a : Article)
  | AllArticles (l : list Article).

Record Response : Type := mkResponse {
  Message : string;
  Data : Payload;
  Error : string
}.

Definition StatusOK : Z := 200.
Definition StatusCreated : Z := 201.
Definition StatusBadRequest : Z := 400.
Definition StatusNotFound : Z := 404.

(** What a handler writes to its [http.ResponseWriter]: a JSON encoded
    [Response] under a status code, or the plain text of [http.Error]. *)
Inductive HttpOut : Type :=
  | HttpJSON (status : Z) (r : Response)
  | HttpError (status : Z) (msg : string).

(** The struct that [saveArticles] encodes and [loadArticles] decodes. *)
Record Snapshot : Type := mkSnapshot {
  Articles : list Article;
  NextID : Z
}.

(** ** The world a handler runs in *)

Inductive Event : Type :=
  | EvLock        (* articlesMutex.Lock() *)
  | EvUnlock      (* articlesMutex.Unlock() *)
  | EvRLock       (* articlesMutex.RLock() *)
  | EvRUnlock     (* articlesMutex.RUnlock() *)
  | EvGoSave.     (* go func() { saveArticles() }() *)

Definition Bytes : Type := list Byte.byte.

(** The data file [articles.gob]. *)
Inductive FileState : Type :=
  | NoFile
  | Unreadable
  | File (b : Bytes).

Record Disk : Type := mkDisk {
  dataFile : FileState;
  (* whether os.Create(dataFile) succeeds *)
  create_ok : bool
}.

Record World : Type := mkWorld {
  articles : list Article;
  nextID : Z;
  (* the n-th call of time.Now() returns [clock n] *)
  clock : nat -> Time;
  ticks : nat;
  disk : Disk;
  trace : list Event
}.

Definition M (A : Type) : Type := World -> A * World.

Definition ret {A : Type} (a : A) : M A := fun w => (a, w).

Definition bind {A B : Type} (m : M A) (k : A -> M B) : M B :=
  fun w => let (a, w') := m w in k a w'.

Notation "'let*' x := m 'in' k" := (bind m (fun x => k))
  (at level 10, x name, m at level 100, k at level 200, only parsing).
Notation "m >> k" := (bind m (fun _ => k))
  (at level 90, right associativity, only parsing).

(** [defer d] followed by [body]: the deferred call runs when the
    function returns, after everything else in its body. *)
Definition defer {A : Type} (d : M unit) (body : M A) : M A :=
  let* r := body in d >> ret r.

Definition emit (e : Event) : M unit := fun w =>
  (tt, mkWorld (articles w) (nextID w) (clock w) (ticks w) (disk w)
         (trace w ++ [e])).

Definition articlesMutex_Lock : M unit := emit EvLock.
Definition articlesMutex_Unlock : M unit := emit EvUnlock.
Definition articlesMutex_RLock : M unit := emit EvRLock.
Definition articlesMutex_RUnlock : M unit := emit EvRUnlock.
Definition go_saveArticles : M unit := emit EvGoSave.

Definition time_Now : M Time := fun w =>
  (clock w (ticks w),
   mkWorld (articles w) (nextID w) (clock w) (S (ticks w)) (disk w) (trace w)).

Definition get_articles : M (list Article) := fun w => (articles w, w).
Definition set_articles (l : list Article) : M unit := fun w =>
  (tt, mkWorld l (nextID w) (clock w) (ticks w) (disk w) (trace w)).
Definition get_nextID : M Z := fun w => (nextID w, w).
Definition set_nextID (n : Z) : M unit := fun w =>
  (tt, mkWorld (articles w) n (clock w) (ticks w) (disk w) (trace w)).
Definition get_disk : M Disk := fun w => (disk w, w).
Definition set_disk (d : Disk) : M unit := fun w =>
  (tt, mkWorld (articles w) (nextID w) (clock w) (ticks w) d (trace w)).

(** [articles[i].f = v] *)
Definition assign_at (i : nat) (f : Article -> Article) : M unit :=
  let* l := get_articles in set_articles (alter f i l).

(** [for i, article := range articles { if article.ID == id { ... return } }]:
    the first index whose article bears [id], with the loop's copy of it. *)
Fixpoint range_find (id : Z) (l : list Article) (i : nat)
  : option (nat * Article) :=
  match l with
  | [] => None
  | article :: rest =>
      if ID article =? id then Some (i, article)
      else range_find id rest (S i)
  end.

(** ** The handlers

    A handler takes what the routing and decoding layers hand to it: the
    result of [strconv.Atoi] on the path parameter ([None] on error) and the
    result of decoding the request body into an [Article] ([None] on
    error). *)

(* GET /articles *)
Definition getAllArticles : M HttpOut :=
  articlesMutex_RLock >>
  defer articlesMutex_RUnlock
    (let* l := get_articles in
     ret (HttpJSON StatusOK
            (mkResponse "Articles retrieved successfully" (AllArticles l) ""))).

(* GET /articles/{id} *)
Definition getArticle (id_arg : option Z) : M HttpOut :=
  match id_arg with
  | None => ret (HttpError StatusBadRequest "Invalid article ID")
  | Some id =>
      articlesMutex_RLock >>
      defer articlesMutex_RUnlock
        (let* l := get_articles in
         match range_find id l 0 with
         | Some (_, article) =>
             ret (HttpJSON StatusOK
                    (mkResponse "Article retrieved successfully"
                       (OneArticle article) ""))
         | None => ret (HttpError StatusNotFound "Article not found")
         end)
  end.

(* POST /articles *)
Definition createArticle (body : option Article) : M HttpOut :=
  match body with
  | None => ret (HttpError StatusBadRequest "Invalid JSON format")
  | Some article =>
      if String.eqb (Title article) "" || String.eqb (Desc article) ""
         || String.eqb (Content article) ""
      then ret (HttpError StatusBadRequest
                  "Title, description, and content are required")
      else
        articlesMutex_Lock >>
        defer articlesMutex_Unlock
          (let* n := get_nextID in
           let article := with_ID n article in
           set_nextID (wrap (n + 1)) >>
           let* t1 := time_Now in
           let article := with_Created t1 article in
           let* t2 := time_Now in
           let article := with_Updated t2 article in
           let* l := get_articles in
           set_articles (l ++ [article]) >>
           go_saveArticles >>
           ret (HttpJSON StatusCreated
                  (mkResponse "Article created successfully"
                     (OneArticle article) "")))
  end.

(* PUT /articles/{id} *)
Definition updateArticle (id_arg : option Z) (body : option Article)
  : M HttpOut :=
  match id_arg with
  | None => ret (HttpError StatusBadRequest "Invalid article ID")
  | Some id =>
      match body with
      | None => ret (HttpError StatusBadRequest "Invalid JSON format")
      | Some updateData =>
          articlesMutex_Lock >>
          defer articlesMutex_Unlock
            (let* l := get_articles in
             match range_find id l 0 with
             | Some (i, article) =>
                 (if String.eqb (Title updateData) "" then ret tt
                  else assign_at i (with_Title (Title updateData))) >>
                 (if String.eqb (Desc updateData) "" then ret tt
                  else assign_at i (with_Desc (Desc updateData))) >>
                 (if String.eqb (Content updateData) "" then ret tt
                  else assign_at i (with_Content (Content updateData))) >>
                 let* t := time_Now in
                 assign_at i (with_Updated t) >>
                 go_saveArticles >>
                 let* l' := get_articles in
                 ret (HttpJSON StatusOK
                        (mkResponse "Article updated successfully"
                           (OneArticle (default article (l' !! i))) ""))
             | None => ret (HttpError StatusNotFound "Article not found")
             end)
      end
  end.

(* DELETE /articles/{id} *)
Definition deleteArticle (id_arg : option Z) : M HttpOut :=
  match id_arg with
  | None => ret (HttpError StatusBadRequest "Invalid article ID")
  | Some id =>
      articlesMutex_Lock >>
      defer articlesMutex_Unlock
        (let* l := get_articles in
         match range_find id l 0 with
         | Some (i, _) =>
             set_articles (take i l ++ drop (S i) l) >>
             go_saveArticles >>
             ret (HttpJSON StatusOK
                    (mkResponse "Article deleted successfully" NoData ""))
         | None => ret (HttpError StatusNotFound "Article not found")
         end)
  end.

(** ** Persistence

    [encoding/gob] is Go's standard library, not code of this repository:
    its encoder and decoder for the snapshot struct are parameters of the
    development. *)

Inductive error : Type :=
  | ErrOpen
  | ErrDecode
  | ErrCreate
  | ErrEncode.

(* os.Open(dataFile) *)
Definition os_Open : M (option Bytes) := fun w =>
  (match dataFile (disk w) with
   | File b => Some b
   | NoFile | Unreadable => None
   end, w).

(* os.Create(dataFile): creates or truncates the file. *)
Definition os_Create : M bool :=
  let* d := get_disk in
  if create_ok d then set_disk (mkDisk (File []) (create_ok d)) >> ret true
  else ret false.

Definition file_Write (b : Bytes) : M unit :=
  let* d := get_disk in set_disk (mkDisk (File b) (create_ok d)).

Section Persistence.

Variable gob_encode : Snapshot -> option Bytes.
Variable gob_decode : Bytes -> option Snapshot.

Definition loadArticles : M (option error) :=
  let* file := os_Open in
  match file with
  | None => ret (Some ErrOpen)
  | Some b =>
      articlesMutex_Lock >>
      defer articlesMutex_Unlock
        (match gob_decode b with
         | None => ret (Some ErrDecode)
         | Some data =>
             set_articles (Articles data) >>
             set_nextID (NextID data) >>
             ret None
         end)
  end.

Definition saveArticles : M (option error) :=
  let* created := os_Create in
  if created then
    articlesMutex_RLock >>
    defer articlesMutex_RUnlock
      (let* l := get_articles in
       let* n := get_nextID in
       let data := mkSnapshot l n in
       match gob_encode data with
       | Some b => file_Write b >> ret None
       | None => ret (Some ErrEncode)
       end)
  else ret (Some ErrCreate).

Definition sampleArticles (t1 t2 t3 t4 t5 t6 : Time) : list Article :=
  [ mkArticle 1 "Introduction to Go"
      "Learn the basics of Go programming language"
      "Go is a statically typed, compiled programming language designed at Google. It's syntactically similar to C, but with memory safety, garbage collection, structural typing, and CSP-style concurrency."
      (time_Add t1 (-24 * Hour)) (time_Add t2 (-24 * Hour));
    mkArticle 2 "Building REST APIs with Go"
      "A comprehensive guide to creating REST APIs in Go"
      "REST APIs are a fundamental part of modern web development. Go provides excellent support for building fast and efficient web services with its built-in net/http package and third-party routers like Gorilla Mux."
      (time_Add t3 (-12 * Hour)) (time_Add t4 (-12 * Hour));
    mkArticle 3 "Database Integration in Go"
      "How to connect Go applications with databases"
      "Go supports various databases including SQLite, PostgreSQL, MySQL, MariaDB, and more. This article covers best practices for database integration in Go applications."
      (time_Add t5 (-6 * Hour)) (time_Add t6 (-6 * Hour)) ].

Definition createSampleData : M unit :=
  articlesMutex_Lock >>
  defer articlesMutex_Unlock
    (let* t1 := time_Now in
     let* t2 := time_Now in
     let* t3 := time_Now in
     let* t4 := time_Now in
     let* t5 := time_Now in
     let* t6 := time_Now in
     set_articles (sampleArticles t1 t2 t3 t4 t5 t6) >>
     set_nextID 4).

Definition initDatabase : M unit :=
  let* err := loadArticles in
  match err with
  | Some _ => createSampleData >> saveArticles >> ret tt
  | None => ret tt
  end.

End Persistence.

(** ** Sequences of Create and Delete requests *)

Inductive Op : Type :=
  | Create (body : Article)
  | Delete (id : Z).

Definition handle (op : Op) : M HttpOut :=
  match op with
  | Create body => createArticle (Some body)
  | Delete id => deleteArticle (Some id)
  end.

Fixpoint run (ops : list Op) : M (list HttpOut) :=
  match ops with
  | [] => ret []
  | op :: rest =>
      let* out := handle op in
      let* outs := run rest in
      ret (out :: outs)
  end.

(** The article a response reports as created. *)
Definition created (out : HttpOut) : option Article :=
  match out with
  | HttpJSON status r =>
      if status =? StatusCreated then
        match Data r with
        | OneArticle a => Some a
        | NoData | AllArticles _ => None
        end
      else None
  | HttpError _ _ => None
  end.

Definition created_articles (outs : list HttpOut) : list Article :=
  omap created outs.

Definition created_ids (outs : list HttpOut) : list Z :=
  ID <$> created_articles outs.

(** Whether a handler answered with success (a JSON body) or with
    [http.Error]. *)
Definition succeeded (out : HttpOut) : bool :=
  match out with
  | HttpJSON _ _ => true
  | HttpError _ _ => false
  end.

(** ** A reference codec

    A plain self-delimiting byte format for snapshots. It stands in for
    [encoding/gob] where a theorem about the persistence code is exercised
    on a concrete encoder and decoder. *)

Module RefCodec.

Definition Parser (A : Type) : Type := Bytes -> option (A * Bytes).

Definition pbind {A B : Type} (p : Parser A) (k : A -> Parser B) : Parser B :=
  fun b => match p b with
           | Some (a, rest) => k a rest
           | None => None
           end.

Definition pret {A : Type} (a : A) : Parser A := fun b => Some (a, b).

Fixpoint enc_pos (p : positive) : Bytes :=
  match p with
  | xH => [x00]
  | xO q => x01 :: enc_pos q
  | xI q => x02 :: enc_pos q
  end.

Fixpoint dec_pos (b : Bytes) : option (positive * Bytes) :=
  match b with
  | x00 :: rest => Some (xH, rest)
  | x01 :: rest =>
      match dec_pos rest with
      | Some (q, rest') => Some (xO q, rest')
      | None => None
      end
  | x02 :: rest =>
      match dec_pos rest with
      | Some (q, rest') => Some (xI q, rest')
      | None => None
      end
  | _ => None
  end.

Definition enc_Z (z : Z) : Bytes :=
  match z with
  | Z0 => [x00]
  | Zpos p => x01 :: enc_pos p
  | Zneg p => x02 :: enc_pos p
  end.

Definition dec_Z : Parser Z := fun b =>
  match b with
  | x00 :: rest => Some (Z0, rest)
  | x01 :: rest => pbind dec_pos (fun p => pret (Zpos p)) rest
  | x02 :: rest => pbind dec_pos (fun p => pret (Zneg p)) rest
  | _ => None
  end.

Fixpoint enc_string (s : string) : Bytes :=
  match s with
  | EmptyString => [x00]
  | String c s' => x01 :: byte_of_ascii c :: enc_string s'
  end.

Fixpoint dec_string (b : Bytes) : option (string * Bytes) :=
  match b with
  | x00 :: rest => Some (EmptyString, rest)
  | x01 :: c :: rest =>
      match dec_string rest with
      | Some (s, rest') => Some (String (ascii_of_byte c) s, rest')
      | None => None
      end
  | _ => None
  end.

Definition enc_article (a : Article) : Bytes :=
  enc_Z (ID a) ++ enc_string (Title a) ++ enc_string (Desc a) ++
  enc_string (Content a) ++ enc_Z (Created a) ++ enc_Z (Updated a).

Definition dec_article : Parser Article :=
  pbind dec_Z (fun id =>
  pbind dec_string (fun title =>
  pbind dec_string (fun desc =>
  pbind dec_string (fun content =>
  pbind dec_Z (fun created =>
  pbind dec_Z (fun updated =>
  pret (mkArticle id title desc content created updated))))))).

Fixpoint enc_articles (l : list Article) : Bytes :=
  match l with
  | [] => [x00]
  | a :: l' => x01 :: enc_article a ++ enc_articles l'
  end.

Fixpoint dec_articles (fuel : nat) (b : Bytes)
  : option (list Article * Bytes) :=
  match fuel with
  | O => None
  | S fuel' =>
      match b with
      | x00 :: rest => Some ([], rest)
      | x01 :: rest =>
          match dec_article rest with
          | Some (a, rest') =>
              match dec_articles fuel' rest' with
              | Some (l, rest'') => Some (a :: l, rest'')
              | None => None
              end
          | None => None
          end
      | _ => None
      end
  end.

Definition encode (s : Snapshot) : option Bytes :=
  Some (enc_articles (Articles s) ++ enc_Z (NextID s)).

Definition decode (b : Bytes) : option Snapshot :=
  match dec_articles (S (length b)) b with
  | Some (l, rest) =>
      match dec_Z rest with
      | Some (n, []) => Some (mkSnapshot l n)
      | _ => None
      end
  | None => None
  end.

End RefCodec.

(** ** The mutex discipline of the mutating handlers *)

Inductive Mutation : Type :=
  | MCreate (body : option Article)
  | MUpdate (id_arg : option Z) (body : option Article)
  | MDelete (id_arg : option Z).

Definition mutate (m : Mutation) : M HttpOut :=
  match m with
  | MCreate body => createArticle body
  | MUpdate id_arg body => updateArticle id_arg body
  | MDelete id_arg => deleteArticle id_arg
  end.

(** The events a computation appends to the trace. *)
Definition emitted {A : Type} (m : M A) (w : World) : list Event :=
  drop (length (trace w)) (trace (snd (m w))).

(** Scan a trace with the state of the write lock, and test that state with
    [P] at every dispatch of a save. *)
Fixpoint dispatch_check (P : bool -> bool) (held : bool) (evs : list Event)
  : bool :=
  match evs with
  | [] => true
  | EvLock :: rest => dispatch_check P true rest
  | EvUnlock :: rest => dispatch_check P false rest
  | EvGoSave :: rest => P held && dispatch_check P held rest
  | _ :: rest => dispatch_check P held rest
  end.

(** Every save is dispatched after the write lock has been released. *)
Definition released_before_dispatch (evs : list Event) : bool :=
  dispatch_check negb false evs.

(** Every save is dispatched while the write lock is held. *)
Definition held_at_dispatch (evs : list Event) : bool :=
  dispatch_check (fun held => held) false evs.

(** Modelled from the spec: the single reader/writer lock that guards the
    collection and the counter ([sync.RWMutex] of Go's standard library,
    which is not code of this repository): an exclusive holder, or any
    number of shared holders. [rw_step] is [None] when the call cannot
    proceed in that state (a [Lock] or [RLock] that has to wait, an unlock
    of a mutex that is not locked). *)
Record RWMutex : Type := mkRW {
  writer : bool;
  readers : nat
}.

Definition rw_free : RWMutex := mkRW false 0.

Definition rw_step (m : RWMutex) (e : Event) : option RWMutex :=
  match e with
  | EvLock =>
      if writer m || negb (Nat.eqb (readers m) 0) then None
      else Some (mkRW true (readers m))
  | EvUnlock => if writer m then Some (mkRW false (readers m)) else None
  | EvRLock => if writer m then None else Some (mkRW false (S (readers m)))
  | EvRUnlock =>
      match readers m with
      | O => None
      | S n => Some (mkRW (writer m) n)
      end
  | EvGoSave => Some m
  end.

Fixpoint rw_run (m : RWMutex) (evs : list Event) : option RWMutex :=
  match evs with
  | [] => Some m
  | e :: rest =>
      match rw_step m e with
      | Some m' => rw_run m' rest
      | None => None
      end
  end.

(** The seed collection that [createSampleData] builds in the world [w]:
    its six timestamps are the next six readings of the clock. *)
Definition seed (w : World) : list Article :=
  sampleArticles
    (clock w (ticks w)) (clock w (1 + ticks w)) (clock w (2 + ticks w))
    (clock w (3 + ticks w)) (clock w (4 + ticks w)) (clock w (5 + ticks w)).

(** The part of an article that does not depend on the clock. *)
Definition fixed_part (a : Article) : Z * string * string * string :=
  (ID a, Title a, Desc a, Content a).

(** The data file is missing, unreadable, or does not decode. *)
Definition load_fails (gob_decode : Bytes -> option Snapshot) (w : World)
  : Prop :=
  dataFile (disk w) = NoFile \/ dataFile (disk w) = Unreadable \/
  exists b, dataFile (disk w) = File b /\ gob_decode b = None.

(** The collection invariant of the data model: the counter is above every
    id of the collection, and the ids of the collection are unique. *)
Definition counter_inv (w : World) : Prop :=
  Forall (fun a => ID a < nextID w) (articles w).

Definition unique_ids (w : World) : Prop :=
  NoDup (ID <$> articles w).

(** A request body that passes the validation of [createArticle]. *)
Definition valid (a : Article) : Prop :=
  Title a <> "" /\ Desc a <> "" /\ Content a <> "".

(** The article that [createArticle] stores for the request body [a]. *)
Definition stamped (w : World) (a : Article) : Article :=
  mkArticle (nextID w) (Title a) (Desc a) (Content a)
    (clock w (ticks w)) (clock w (S (ticks w))).

(** The body of a failed validation. *)
Definition ValidationError : HttpOut :=
  HttpError StatusBadRequest "Title, description, and content are required".

Definition NotFound : HttpOut :=
  HttpError StatusNotFound "Article not found".

(** The article that [updateArticle] leaves in place of [a] for the request
    body [u]. *)
Definition updated (w : World) (u a : Article) : Article :=
  mkArticle (ID a)
    (if String.eqb (Title u) "" then Title a else Title u)
    (if String.eqb (Desc u) "" then Desc a else Desc u)
    (if String.eqb (Content u) "" then Content a else Content u)
    (Created a) (clock w (ticks w)).

(** ** The welcome route and the routing table *)

(* GET / *)
Definition homePage : M HttpOut :=
  ret (HttpJSON StatusOK
         (mkResponse
            "Welcome to the Go Spring API with persistent file storage! Use /articles for CRUD operations."
            NoData "")).

(** A request that matches one of the six routes [handleRequests]
    registers, with what the handler reads from it. *)
Inductive Request : Type :=
  | GetHome                                                  (* GET / *)
  | GetArticles                                              (* GET /articles *)
  | GetArticleAt (id_arg : option Z)                         (* GET /articles/{id} *)
  | PostArticle (body : option Article)                      (* POST /articles *)
  | PutArticle (id_arg : option Z) (body : option Article)   (* PUT /articles/{id} *)
  | DeleteArticleAt (id_arg : option Z).                     (* DELETE /articles/{id} *)

Definition serve (r : Request) : M HttpOut :=
  match r with
  | GetHome => homePage
  | GetArticles => getAllArticles
  | GetArticleAt id_arg => getArticle id_arg
  | PostArticle body => createArticle body
  | PutArticle id_arg body => updateArticle id_arg body
  | DeleteArticleAt id_arg => deleteArticle id_arg
  end.

Fixpoint serve_all (reqs : list Request) : M (list HttpOut) :=
  match reqs with
  | [] => ret []
  | r :: rest =>
      let* out := serve r in
      let* outs := serve_all rest in
      ret (out :: outs)
  end.

(** The status code of a response. *)
Definition status (out : HttpOut) : Z :=
  match out with
  | HttpJSON s _ => s
  | HttpError s _ => s
  end.

(** A request that a handler turns down on its own, whatever the store
    holds: a path parameter that is no number, a body that does not decode,
    or a Create without one of its required fields. *)
Definition rejected (r : Request) : bool :=
  match r with
  | GetHome | GetArticles => false
  | GetArticleAt id_arg | DeleteArticleAt id_arg =>
      match id_arg with None => true | Some _ => false end
  | PostArticle body =>
      match body with
      | None => true
      | Some a =>
          String.eqb (Title a) "" || String.eqb (Desc a) ""
          || String.eqb (Content a) ""
      end
  | PutArticle id_arg body =>
      match id_arg, body with
      | Some _, Some _ => false
      | _, _ => true
      end
  end.

(** The id a well-formed request addresses an existing article by. *)
Definition addressed (r : Request) : option Z :=
  match r with
  | GetArticleAt (Some id) | DeleteArticleAt (Some id)
  | PutArticle (Some id) (Some _) => Some id
  | _ => None
  end.

(** Requests that only read. *)
Definition is_read (r : Request) : bool :=
  match r with
  | GetHome | GetArticles | GetArticleAt _ => true
  | _ => false
  end.

(** The first article of a sequence that bears [id]: what the range loop of
    the handlers finds, without its index. *)
Definition lookup_id (id : Z) (l : list Article) : option Article :=
  snd <$> range_find id l 0.

(** ** The command-line demo

    The demo program keeps the same two package level variables and works
    on them without a mutex, without persistence and without validation.
    A [*Article] result is the article it points to when the function
    returns, [None] for [nil]. *)

Module Demo.

(* CREATE - Add new article *)
Definition createArticle (title desc content : string) : M Article :=
  let* n := get_nextID in
  let* t1 := time_Now in
  let* t2 := time_Now in
  let article := mkArticle n title desc content t1 t2 in
  set_nextID (wrap (n + 1)) >>
  let* l := get_articles in
  set_articles (l ++ [article]) >>
  ret article.

(* READ - Get all articles *)
Definition getAllArticles : M (list Article) := get_articles.

(* READ - Get single article by ID *)
Definition getArticleByID (id : Z) : M (option Article) :=
  let* l := get_articles in
  match range_find id l 0 with
  | Some (_, article) => ret (Some article)
  | None => ret None
  end.

(* UPDATE - Update article by ID *)
Definition updateArticle (id : Z) (title desc content : string)
  : M (option Article) :=
  let* l := get_articles in
  match range_find id l 0 with
  | Some (i, article) =>
      (if String.eqb title "" then ret tt
       else assign_at i (with_Title title)) >>
      (if String.eqb desc "" then ret tt
       else assign_at i (with_Desc desc)) >>
      (if String.eqb content "" then ret tt
       else assign_at i (with_Content content)) >>
      let* t := time_Now in
      assign_at i (with_Updated t) >>
      let* l' := get_articles in
      ret (Some (default article (l' !! i)))
  | None => ret None
  end.

(* DELETE - Delete article by ID *)
Definition deleteArticle (id : Z) : M bool :=
  let* l := get_articles in
  match range_find id l 0 with
  | Some (i, _) =>
      set_articles (take i l ++ drop (S i) l) >>
      ret true
  | None => ret false
  end.

End Demo.

(** Two worlds with the same store and the same clock position. *)
Definition same_store (w1 w2 : World) : Prop :=
  articles w1 = articles w2 /\ nextID w1 = nextID w2 /\
  ticks w1 = ticks w2 /\ disk w1 = disk w2.

(** What Get answers for the result of its search. *)
Definition found_response (o : option Article) : HttpOut :=
  match o with
  | Some a =>
      HttpJSON StatusOK
        (mkResponse "Article retrieved successfully" (OneArticle a) "")
  | None => HttpError StatusNotFound "Article not found"
  end.

(** The request [r], served in the world [w], is not about the id [j]: it
    is a read, an Update or Delete of another id, or a Create while the
    counter is not [j]. *)
Definition leaves_alone (r : Request) (w : World) (j : Z) : Prop :=
  match r with
  | PostArticle _ => j <> nextID w
  | PutArticle id_arg _ | DeleteArticleAt id_arg => id_arg <> Some j
  | GetHome | GetArticles | GetArticleAt _ => True
  end.

(** A sequence of lock events that, replayed on a free mutex, proceeds
    without waiting and leaves the mutex free. *)
Definition balanced (evs : list Event) : Prop :=
  rw_run rw_free evs = Some rw_free.

(** The id that a request of a sequence removed an article for: the id of a
    Delete that answered with success. *)
Definition removed_id (op : Op) (out : HttpOut) : option Z :=
  match op with
  | Delete id => if succeeded out then Some id else None
  | Create _ => None
  end.

(** The ids of the successful Deletes of a sequence, from the requests and
    their responses. *)
Fixpoint deleted_ids (ops : list Op) (outs : list HttpOut) : list Z :=
  match ops, outs with
  | op :: ops', out :: outs' =>
      match removed_id op out with
      | Some id => id :: deleted_ids ops' outs'
      | None => deleted_ids ops' outs'
      end
  | _, _ => []
  end.

(** Concrete inputs used to exercise the theorems. *)
Definition tick_clock : nat -> Time := fun n => Z.of_nat n.

Definition empty_disk : Disk := mkDisk NoFile true.

Definition world_of (l : list Article) (n : Z) : World :=
  mkWorld l n tick_clock 0 empty_disk [].

Definition req (title : string) : Article := mkArticle 0 title "d" "c" 0 0.

(** * Properties *)

(** ** Integer arithmetic *)

Lemma wrap_id (z : Z) : in_range z -> wrap z = z.
Proof.
  unfold in_range, int_min, int_max, wrap. intros Hz.
  rewrite Z.mod_small; lia.
Qed.

Lemma wrap_succ (n : Z) : in_range n -> n < int_max -> wrap (n + 1) = n + 1.
Proof.
  intros Hn Hlt. apply wrap_id. unfold in_range, int_min, int_max in *. lia.
Qed.

Lemma wrap_overflow : wrap (int_max + 1) = int_min.
Proof. reflexivity. Qed.

(** ** The range loop *)

Lemma range_find_Some (id : Z) (l : list Article) (k i : nat) (a : Article) :
  range_find id l k = Some (i, a) ->
  exists l1 l2,
    l = l1 ++ a :: l2 /\ i = (k + length l1)%nat /\ ID a = id /\
    Forall (fun b => ID b <> id) l1.
Proof.
  revert k. induction l as [|b l IH]; intros k Hf; simpl in Hf; [discriminate|].
  destruct (Z.eqb_spec (ID b) id) as [Heq|Hne].
  - inversion Hf; subst. exists [], l. repeat split; auto; simpl; lia.
  - destruct (IH _ Hf) as (l1 & l2 & -> & -> & Hid & Hall).
    exists (b :: l1), l2. repeat split; auto; simpl; lia.
Qed.

Lemma range_find_None (id : Z) (l : list Article) (k : nat) :
  range_find id l k = None <-> Forall (fun b => ID b <> id) l.
Proof.
  revert k. induction l as [|b l IH]; intros k; simpl.
  - split; auto.
  - destruct (Z.eqb_spec (ID b) id) as [Heq|Hne].
    + split; [discriminate|]. intros H. inversion H; subst. congruence.
    + rewrite IH. split; intros H.
      * constructor; auto.
      * inversion H; auto.
Qed.

Lemma range_find_first (id : Z) (l1 l2 : list Article) (a : Article) (k : nat) :
  Forall (fun b => ID b <> id) l1 -> ID a = id ->
  range_find id (l1 ++ a :: l2) k = Some ((k + length l1)%nat, a).
Proof.
  revert k. induction l1 as [|b l1 IH]; intros k Hall Hid; simpl.
  - rewrite (proj2 (Z.eqb_eq _ _) Hid). do 2 f_equal. lia.
  - inversion Hall as [|? ? Hb Hl1]; subst.
    rewrite (proj2 (Z.eqb_neq _ _) Hb).
    rewrite (IH _ Hl1 eq_refl). do 2 f_equal. simpl. lia.
Qed.

Lemma Forall_ne_notin (id : Z) (l : list Article) :
  Forall (fun b => ID b <> id) l <-> id ∉ (ID <$> l).
Proof.
  rewrite Forall_forall, list_elem_of_fmap. split.
  - intros H (b & -> & Hb). exact (H b Hb eq_refl).
  - intros H b Hb Heq. apply H. exists b. auto.
Qed.

(** ** What each handler computes *)

Ltac unfold_monad :=
  unfold defer, bind, ret, articlesMutex_Lock, articlesMutex_Unlock, articlesMutex_RLock,
    articlesMutex_RUnlock, go_saveArticles, emit, time_Now, assign_at, get_articles,
    set_articles, get_nextID, set_nextID, get_disk, set_disk; cbn.

Lemma required_missing (a : Article) :
  String.eqb (Title a) "" || String.eqb (Desc a) ""
    || String.eqb (Content a) "" = true
  <-> Title a = "" \/ Desc a = "" \/ Content a = "".
Proof.
  rewrite !orb_true_iff, !String.eqb_eq. tauto.
Qed.

Lemma required_present (a : Article) :
  valid a ->
  String.eqb (Title a) "" || String.eqb (Desc a) ""
    || String.eqb (Content a) "" = false.
Proof.
  intros (Ht & Hd & Hc).
  destruct (_ || _ || _) eqn:E; [|reflexivity].
  apply required_missing in E. tauto.
Qed.

Lemma createArticle_invalid (w : World) (a : Article) :
  Title a = "" \/ Desc a = "" \/ Content a = "" ->
  createArticle (Some a) w = (ValidationError, w).
Proof.
  intros H. unfold createArticle.
  rewrite (proj2 (required_missing a) H). reflexivity.
Qed.

Lemma createArticle_valid (w : World) (a : Article) :
  valid a ->
  createArticle (Some a) w =
    (HttpJSON StatusCreated
       (mkResponse "Article created successfully" (OneArticle (stamped w a)) ""),
     mkWorld (articles w ++ [stamped w a]) (wrap (nextID w + 1)) (clock w)
       (S (S (ticks w))) (disk w) (trace w ++ [EvLock; EvGoSave; EvUnlock])).
Proof.
  intros H. unfold createArticle. rewrite (required_present a H).
  destruct w as [l n c t d tr]. cbn. rewrite <- !app_assoc. reflexivity.
Qed.

Lemma valid_dec (a : Article) :
  valid a \/ (Title a = "" \/ Desc a = "" \/ Content a = "").
Proof.
  unfold valid.
  destruct (String.eqb_spec (Title a) ""); [tauto|].
  destruct (String.eqb_spec (Desc a) ""); [tauto|].
  destruct (String.eqb_spec (Content a) ""); tauto.
Qed.

Lemma deleteArticle_found (w : World) (id : Z) (i : nat) (a : Article) :
  range_find id (articles w) 0 = Some (i, a) ->
  deleteArticle (Some id) w =
    (HttpJSON StatusOK (mkResponse "Article deleted successfully" NoData ""),
     mkWorld (take i (articles w) ++ drop (S i) (articles w)) (nextID w)
       (clock w) (ticks w) (disk w) (trace w ++ [EvLock; EvGoSave; EvUnlock])).
Proof.
  intros H. destruct w as [l n c t d tr]. cbn in *.
  unfold deleteArticle. unfold_monad. rewrite H. cbn.
  rewrite <- !app_assoc. reflexivity.
Qed.

Lemma deleteArticle_missing (w : World) (id : Z) :
  range_find id (articles w) 0 = None ->
  deleteArticle (Some id) w =
    (NotFound,
     mkWorld (articles w) (nextID w) (clock w) (ticks w) (disk w)
       (trace w ++ [EvLock; EvUnlock])).
Proof.
  intros H. destruct w as [l n c t d tr]. cbn in *.
  unfold deleteArticle. unfold_monad. rewrite H. cbn.
  rewrite <- !app_assoc. reflexivity.
Qed.

Lemma getArticle_found (w : World) (id : Z) (i : nat) (a : Article) :
  range_find id (articles w) 0 = Some (i, a) ->
  fst (getArticle (Some id) w) =
    HttpJSON StatusOK
      (mkResponse "Article retrieved successfully" (OneArticle a) "").
Proof.
  intros H. destruct w as [l n c t d tr]. cbn in *.
  unfold getArticle. unfold_monad. rewrite H. reflexivity.
Qed.

Lemma getArticle_missing (w : World) (id : Z) :
  range_find id (articles w) 0 = None ->
  fst (getArticle (Some id) w) = NotFound.
Proof.
  intros H. destruct w as [l n c t d tr]. cbn in *.
  unfold getArticle. unfold_monad. rewrite H. reflexivity.
Qed.

Lemma alter_middle (f : Article -> Article) (l1 l2 : list Article) (a : Article) :
  alter f (length l1) (l1 ++ a :: l2) = l1 ++ f a :: l2.
Proof.
  induction l1 as [|b l1 IH]; [reflexivity|].
  change (b :: alter f (length l1) (l1 ++ a :: l2) = b :: l1 ++ f a :: l2).
  now rewrite IH.
Qed.

Lemma updateArticle_found (w : World) (id : Z) (u a : Article)
    (l1 l2 : list Article) :
  articles w = l1 ++ a :: l2 ->
  Forall (fun b => ID b <> id) l1 -> ID a = id ->
  updateArticle (Some id) (Some u) w =
    (HttpJSON StatusOK
       (mkResponse "Article updated successfully"
          (OneArticle (updated w u a)) ""),
     mkWorld (l1 ++ updated w u a :: l2) (nextID w) (clock w) (S (ticks w))
       (disk w) (trace w ++ [EvLock; EvGoSave; EvUnlock])).
Proof.
  intros Hl Hl1 Ha. destruct w as [l n c t d tr]. cbn in *. subst l.
  unfold updateArticle. unfold_monad.
  rewrite (range_find_first id l1 l2 a 0 Hl1 Ha). cbn.
  unfold updated. destruct a as [i ti de co cr up]. cbn.
  destruct (String.eqb (Title u) ""), (String.eqb (Desc u) ""),
    (String.eqb (Content u) "");
    cbn; rewrite ?alter_middle; cbn;
    rewrite list_lookup_middle by reflexivity; cbn;
    rewrite <- !app_assoc; reflexivity.
Qed.

Lemma updateArticle_missing (w : World) (id : Z) (u : Article) :
  range_find id (articles w) 0 = None ->
  updateArticle (Some id) (Some u) w =
    (NotFound,
     mkWorld (articles w) (nextID w) (clock w) (ticks w) (disk w)
       (trace w ++ [EvLock; EvUnlock])).
Proof.
  intros H. destruct w as [l n c t d tr]. cbn in *.
  unfold updateArticle. unfold_monad. rewrite H. cbn.
  rewrite <- !app_assoc. reflexivity.
Qed.

Lemma deleteArticle_first (w : World) (id : Z) (a : Article)
    (l1 l2 : list Article) :
  articles w = l1 ++ a :: l2 ->
  Forall (fun b => ID b <> id) l1 -> ID a = id ->
  deleteArticle (Some id) w =
    (HttpJSON StatusOK (mkResponse "Article deleted successfully" NoData ""),
     mkWorld (l1 ++ l2) (nextID w) (clock w) (ticks w) (disk w)
       (trace w ++ [EvLock; EvGoSave; EvUnlock])).
Proof.
  intros Hl Hl1 Ha.
  rewrite (deleteArticle_found w id (length l1) a).
  - now rewrite <- delete_take_drop, Hl, delete_middle.
  - rewrite Hl. apply (range_find_first id l1 l2 a 0 Hl1 Ha).
Qed.

Lemma range_find_cases (id : Z) (l : list Article) :
  (range_find id l 0 = None /\ Forall (fun b => ID b <> id) l) \/
  (exists l1 a l2,
     l = l1 ++ a :: l2 /\ Forall (fun b => ID b <> id) l1 /\ ID a = id).
Proof.
  destruct (range_find id l 0) as [[i a]|] eqn:Hf.
  - right. destruct (range_find_Some _ _ _ _ _ Hf) as (l1 & l2 & ? & _ & ? & ?).
    exists l1, a, l2. auto.
  - left. split; [reflexivity|]. now apply (range_find_None id l 0).
Qed.

(** ** One request of a sequence *)

Lemma Forall_sublist {A : Type} (P : A -> Prop) (l1 l2 : list A) :
  sublist l1 l2 -> Forall P l2 -> Forall P l1.
Proof.
  induction 1 as [|x l1 l2 _ IH|x l1 l2 _ IH]; intros H.
  - constructor.
  - apply Forall_cons in H as [Hx H]. constructor; auto.
  - apply Forall_cons in H as [_ H]. auto.
Qed.

Lemma handle_step (op : Op) (w : World) :
  (created (fst (handle op w)) = None /\
   nextID (snd (handle op w)) = nextID w /\
   sublist (articles (snd (handle op w))) (articles w)) \/
  (exists art,
     created (fst (handle op w)) = Some art /\
     ID art = nextID w /\
     nextID (snd (handle op w)) = wrap (nextID w + 1) /\
     articles (snd (handle op w)) = articles w ++ [art]).
Proof.
  destruct op as [a|id]; cbn [handle].
  - destruct (valid_dec a) as [Hv|Hm].
    + right. rewrite (createArticle_valid w a Hv). exists (stamped w a).
      repeat split; reflexivity.
    + left. rewrite (createArticle_invalid w a Hm). repeat split; reflexivity.
  - left.
    destruct (range_find_cases id (articles w))
      as [[Hf _]|(l1 & a & l2 & Hl & Hl1 & Ha)].
    + rewrite (deleteArticle_missing w id Hf). repeat split; reflexivity.
    + rewrite (deleteArticle_first w id a l1 l2 Hl Hl1 Ha).
      cbn [fst snd created articles nextID]. repeat split; try reflexivity.
      rewrite Hl. apply sublist_app; [reflexivity|]. now apply sublist_cons.
Qed.

Lemma run_cons (op : Op) (rest : list Op) (w : World) :
  run (op :: rest) w =
    (fst (handle op w) :: fst (run rest (snd (handle op w))),
     snd (run rest (snd (handle op w)))).
Proof.
  cbn [run]. unfold bind, ret.
  destruct (handle op w) as [out w1]. cbn [fst snd].
  now destruct (run rest w1).
Qed.

Lemma created_articles_cons (out : HttpOut) (outs : list HttpOut) :
  created_articles (out :: outs) =
    match created out with
    | Some a => a :: created_articles outs
    | None => created_articles outs
    end.
Proof. reflexivity. Qed.

(** The collection after a sequence is a subsequence of what was there
    before followed by what the sequence created, in creation order. *)
Lemma run_sublist (ops : list Op) (w : World) :
  sublist (articles (snd (run ops w)))
    (articles w ++ created_articles (fst (run ops w))).
Proof.
  revert w. induction ops as [|op rest IH]; intros w.
  - cbn. now rewrite app_nil_r.
  - rewrite run_cons. cbn [fst snd]. rewrite created_articles_cons.
    specialize (IH (snd (handle op w))).
    destruct (handle_step op w) as [(Hc & _ & Hsub)|(art & Hc & _ & _ & Happ)];
      rewrite Hc.
    + etransitivity; [exact IH|]. apply sublist_app; [exact Hsub|reflexivity].
    + rewrite Happ, <- app_assoc in IH. exact IH.
Qed.

(** Without overflow, the ids of a sequence are handed out in increasing
    order from the counter, which ends above all of them. *)
Lemma run_ids (ops : list Op) (w : World) :
  in_range (nextID w) ->
  nextID w + Z.of_nat (length ops) <= int_max ->
  nextID w <= nextID (snd (run ops w)) <= nextID w + Z.of_nat (length ops) /\
  StronglySorted Z.lt (created_ids (fst (run ops w))) /\
  Forall (fun i => nextID w <= i < nextID (snd (run ops w)))
    (created_ids (fst (run ops w))).
Proof.
  revert w. induction ops as [|op rest IH]; intros w Hr Hmax.
  - cbn. repeat split; try lia; constructor.
  - rewrite run_cons. cbn [fst snd length] in *.
    unfold created_ids in *. rewrite created_articles_cons.
    specialize (IH (snd (handle op w))).
    destruct (handle_step op w) as [(Hc & Hn & _)|(art & Hc & Hid & Hn & _)];
      rewrite Hc.
    + rewrite Hn in IH. destruct (IH Hr ltac:(lia)) as (Hb & Hs & Hall).
      repeat split; try lia; assumption.
    + rewrite wrap_succ in Hn by (unfold in_range in *; lia).
      rewrite Hn in IH.
      destruct IH as (Hb & Hs & Hall);
        [unfold in_range, int_min in *; lia | lia |].
      rewrite fmap_cons, Hid. repeat split; try lia.
      * constructor; [exact Hs|].
        eapply Forall_impl; [exact Hall|]. cbn. intros; lia.
      * constructor; [lia|].
        eapply Forall_impl; [exact Hall|]. cbn. intros; lia.
Qed.

(** Without overflow, a sequence keeps the ids of the collection unique. *)
Lemma run_unique_ids (ops : list Op) (w : World) :
  counter_inv w -> unique_ids w ->
  in_range (nextID w) ->
  nextID w + Z.of_nat (length ops) <= int_max ->
  unique_ids (snd (run ops w)).
Proof.
  intros Hinv Huniq Hr Hmax. unfold unique_ids in *.
  destruct (run_ids ops w Hr Hmax) as (_ & Hs & Hall).
  apply (sublist_NoDup _ (ID <$> (articles w ++ created_articles (fst (run ops w))))).
  - rewrite fmap_app. apply NoDup_app. split; [exact Huniq|]. split.
    + intros i Hold Hnew.
      apply list_elem_of_fmap in Hold as (a & -> & Ha).
      unfold counter_inv in Hinv. rewrite Forall_forall in Hinv.
      specialize (Hinv _ Ha).
      unfold created_ids in Hall. rewrite Forall_forall in Hall.
      specialize (Hall _ Hnew). lia.
    + clear -Hs. unfold created_ids in Hs.
      induction Hs as [|i l Hs IH Hi]; constructor; [|exact IH].
      intros Hin. rewrite Forall_forall in Hi. specialize (Hi _ Hin). lia.
  - apply fmap_sublist, run_sublist.
Qed.

(** ** Create *)

(** C6: Create answers with the validation error exactly when one of title,
    desc, content of the request is the empty string, and in that case the
    world (the collection and the next-ID counter included) is unchanged. *)
Theorem create_validation_error (w : World) (a : Article) :
  (fst (createArticle (Some a) w) = ValidationError
   <-> Title a = "" \/ Desc a = "" \/ Content a = "") /\
  (fst (createArticle (Some a) w) = ValidationError
   -> snd (createArticle (Some a) w) = w).
Proof.
  destruct (valid_dec a) as [Hv|Hm].
  - rewrite (createArticle_valid w a Hv). cbn. unfold ValidationError.
    split; [split|]; try discriminate. unfold valid in Hv. tauto.
  - rewrite (createArticle_invalid w a Hm). cbn. tauto.
Qed.

(** C3, as the specification states it, fails: the two timestamps come from
    two successive readings of the clock, and the counter wraps around at
    the largest [int]. *)
Lemma create_stamps_counterexample :
  let w := world_of [] int_max in
  let r := createArticle (Some (req "A")) w in
  (exists art, created (fst r) = Some art /\ Created art <> Updated art) /\
  nextID (snd r) <> nextID w + 1.
Proof.
  split.
  - exists (mkArticle int_max "A" "d" "c" 0 1).
    split; [reflexivity | discriminate].
  - discriminate.
Qed.

(** C3 (amended): on every successful Create the new article's id is the
    pre-call counter, the counter becomes its successor in 64-bit
    arithmetic (plus one below the largest int), created_at is the first
    and updated_at the second of two successive clock readings, the text
    fields are the request's, the article is appended at the end of the
    sequence and the response carries the stored article. *)
Theorem create_success (w : World) (a : Article) :
  valid a ->
  exists art w',
    createArticle (Some a) w =
      (HttpJSON StatusCreated
         (mkResponse "Article created successfully" (OneArticle art) ""), w') /\
    ID art = nextID w /\
    nextID w' = wrap (nextID w + 1) /\
    (in_range (nextID w) -> nextID w < int_max -> nextID w' = nextID w + 1) /\
    Created art = clock w (ticks w) /\
    Updated art = clock w (S (ticks w)) /\
    Title art = Title a /\ Desc art = Desc a /\ Content art = Content a /\
    articles w' = articles w ++ [art].
Proof.
  intros Hv. eexists _, _. split; [apply (createArticle_valid w a Hv)|].
  cbn. repeat split; try reflexivity. apply wrap_succ.
Qed.

Lemma create_success_witness :
  exists art w',
    createArticle (Some (req "A")) (world_of [] 1) =
      (HttpJSON StatusCreated
         (mkResponse "Article created successfully" (OneArticle art) ""), w') /\
    ID art = 1 /\ nextID w' = 2 /\ articles w' = [art].
Proof.
  destruct (create_success (world_of [] 1) (req "A")) as
    (art & w' & Hrun & Hid & _ & Hnext & _ & _ & _ & _ & _ & Happ).
  - repeat split; discriminate.
  - exists art, w'. repeat split; auto.
    apply Hnext; [split|]; vm_compute; congruence.
Defined.

(** C10: the id, created and updated values of the request body do not
    influence Create: two bodies with the same title, desc and content give
    the same response and the same world, and the stored article carries the
    counter as id and the clock readings as timestamps. *)
Theorem create_ignores_caller_fields (w : World) (a b : Article) :
  Title a = Title b -> Desc a = Desc b -> Content a = Content b ->
  createArticle (Some a) w = createArticle (Some b) w /\
  (valid a ->
   exists art,
     created (fst (createArticle (Some a) w)) = Some art /\
     ID art = nextID w /\
     Created art = clock w (ticks w) /\
     Updated art = clock w (S (ticks w))).
Proof.
  intros Ht Hd Hc. split.
  - destruct (valid_dec a) as [Hv|Hm].
    + assert (Hvb : valid b) by (unfold valid in *; rewrite <- Ht, <- Hd, <- Hc; exact Hv).
      rewrite (createArticle_valid w a Hv), (createArticle_valid w b Hvb).
      unfold stamped. now rewrite Ht, Hd, Hc.
    + assert (Hmb : Title b = "" \/ Desc b = "" \/ Content b = "")
        by (rewrite <- Ht, <- Hd, <- Hc; exact Hm).
      now rewrite (createArticle_invalid w a Hm), (createArticle_invalid w b Hmb).
  - intros Hv. rewrite (createArticle_valid w a Hv). cbn.
    eexists. repeat split; reflexivity.
Qed.

Lemma create_ignores_caller_fields_witness :
  createArticle (Some (mkArticle 99 "A" "d" "c" 123 456)) (world_of [] 1)
  = createArticle (Some (req "A")) (world_of [] 1).
Proof.
  apply (create_ignores_caller_fields (world_of [] 1)
           (mkArticle 99 "A" "d" "c" 123 456) (req "A"));
    reflexivity.
Defined.

(** ** Update *)

(** C4: when [a] is the article that bears [id] (the first one in the
    sequence), Update overwrites each of title, desc, content exactly when
    the provided value is non-empty and keeps the stored value otherwise,
    sets updated_at to the clock reading of the call whatever the fields
    are, keeps id and created_at, and leaves every other article, the order
    and the counter as they were. *)
Theorem update_partial (w : World) (id : Z) (u a : Article)
    (l1 l2 : list Article) :
  articles w = l1 ++ a :: l2 ->
  Forall (fun b => ID b <> id) l1 -> ID a = id ->
  exists a' w',
    updateArticle (Some id) (Some u) w =
      (HttpJSON StatusOK
         (mkResponse "Article updated successfully" (OneArticle a') ""), w') /\
    articles w' = l1 ++ a' :: l2 /\
    nextID w' = nextID w /\
    (Title u <> "" -> Title a' = Title u) /\
    (Title u = "" -> Title a' = Title a) /\
    (Desc u <> "" -> Desc a' = Desc u) /\
    (Desc u = "" -> Desc a' = Desc a) /\
    (Content u <> "" -> Content a' = Content u) /\
    (Content u = "" -> Content a' = Content a) /\
    Updated a' = clock w (ticks w) /\
    ID a' = ID a /\
    Created a' = Created a.
Proof.
  intros Hl Hl1 Ha. exists (updated w u a). eexists.
  split; [apply (updateArticle_found w id u a l1 l2 Hl Hl1 Ha)|].
  cbn. repeat split; try reflexivity; intros H;
    match goal with
    | |- context [String.eqb ?s ""] =>
        destruct (String.eqb_spec s ""); congruence
    end.
Qed.

Lemma update_partial_witness :
  exists a' w',
    updateArticle (Some 2) (Some (mkArticle 0 "T" "" "" 0 0))
      (world_of [mkArticle 1 "A" "d" "c" 5 5; mkArticle 2 "B" "e" "f" 6 6] 3) =
      (HttpJSON StatusOK
         (mkResponse "Article updated successfully" (OneArticle a') ""), w') /\
    articles w' = [mkArticle 1 "A" "d" "c" 5 5; a'] /\
    Title a' = "T" /\ Desc a' = "e" /\ Content a' = "f" /\
    Updated a' = 0 /\ ID a' = 2 /\ Created a' = 6.
Proof.
  destruct (update_partial
              (world_of [mkArticle 1 "A" "d" "c" 5 5; mkArticle 2 "B" "e" "f" 6 6] 3)
              2 (mkArticle 0 "T" "" "" 0 0) (mkArticle 2 "B" "e" "f" 6 6)
              [mkArticle 1 "A" "d" "c" 5 5] [])
    as (a' & w' & Hrun & Hl & _ & Ht & _ & _ & Hd & _ & Hc & Hu & Hi & Hcr).
  - reflexivity.
  - repeat constructor. discriminate.
  - reflexivity.
  - exists a', w'. repeat split; auto.
Defined.

(** ** Delete and Get *)

(** C5, as the specification states it for every state, fails where two
    articles bear the same id (a collection that [loadArticles] installs
    without any check when the data file holds it): Delete removes the first
    of them only, and Get still finds the second. *)
Lemma delete_duplicate_counterexample :
  let w := world_of [mkArticle 1 "A" "d" "c" 5 5; mkArticle 1 "B" "e" "f" 6 6] 2 in
  let w' := snd (deleteArticle (Some 1) w) in
  succeeded (fst (deleteArticle (Some 1) w)) = true /\
  fst (getArticle (Some 1) w') =
    HttpJSON StatusOK
      (mkResponse "Article retrieved successfully"
         (OneArticle (mkArticle 1 "B" "e" "f" 6 6)) "") /\
  fst (getArticle (Some 1) w') <> NotFound.
Proof. repeat split. discriminate. Qed.

(** C5 (amended): in every state, Delete succeeds exactly when an article
    bears the id; it then removes the first such article and nothing else;
    when it fails the collection and the counter are unchanged; in both
    cases the remaining articles keep their relative order; and in a
    collection whose ids are unique (the collection invariant), Get of the
    id after a successful Delete answers NotFound. *)
Theorem delete_then_get (w : World) (id : Z) :
  let out := fst (deleteArticle (Some id) w) in
  let w' := snd (deleteArticle (Some id) w) in
  (succeeded out = true <-> (id ∈ (ID <$> articles w))) /\
  (succeeded out = true ->
   exists l1 a l2,
     articles w = l1 ++ a :: l2 /\ ID a = id /\ (id ∉ (ID <$> l1)) /\
     articles w' = l1 ++ l2) /\
  (succeeded out = false ->
   out = NotFound /\ articles w' = articles w /\ nextID w' = nextID w) /\
  sublist (articles w') (articles w) /\
  (unique_ids w -> succeeded out = true ->
   fst (getArticle (Some id) w') = NotFound).
Proof.
  cbn zeta.
  destruct (range_find_cases id (articles w))
    as [[Hf Hall]|(l1 & a & l2 & Hl & Hl1 & Ha)].
  - rewrite (deleteArticle_missing w id Hf). cbn.
    apply Forall_ne_notin in Hall.
    repeat split; try discriminate; try reflexivity; tauto.
  - rewrite (deleteArticle_first w id a l1 l2 Hl Hl1 Ha).
    cbn [fst snd succeeded articles nextID].
    split; [|split; [|split; [|split]]].
    + split; [intros _|reflexivity].
      rewrite Hl, fmap_app, fmap_cons, Ha.
      apply elem_of_app. right. apply list_elem_of_here.
    + intros _. exists l1, a, l2. apply Forall_ne_notin in Hl1. auto.
    + discriminate.
    + rewrite Hl. apply sublist_app; [reflexivity|]. now apply sublist_cons.
    + intros Huniq _. apply getArticle_missing. cbn [articles].
      apply (range_find_None id (l1 ++ l2) 0), Forall_app. split; [exact Hl1|].
      unfold unique_ids in Huniq.
      rewrite Hl, fmap_app, fmap_cons, Ha in Huniq.
      apply NoDup_app in Huniq as (_ & _ & Hnd).
      apply NoDup_cons in Hnd as [Hnotin _].
      now apply Forall_ne_notin.
Qed.

Lemma delete_then_get_witness :
  let w := world_of [mkArticle 1 "A" "d" "c" 5 5; mkArticle 2 "B" "e" "f" 6 6] 3 in
  fst (getArticle (Some 1) (snd (deleteArticle (Some 1) w))) = NotFound.
Proof.
  intros w.
  destruct (delete_then_get w 1) as (_ & _ & _ & _ & Hget).
  apply Hget.
  - unfold unique_ids. apply (bool_decide_unpack _). vm_compute. exact I.
  - reflexivity.
Defined.

(** ** Sequences of requests *)

(** The scenario of the specification: from the empty store, Create A gets
    id 1, Create B gets id 2, Delete 1 succeeds, Create C gets id 3, and the
    collection is then B, C. *)
Example concrete_scenario :
  let ops := [Create (req "A"); Create (req "B"); Delete 1; Create (req "C")] in
  created_ids (fst (run ops (world_of [] 1))) = [1; 2; 3] /\
  succeeded <$> fst (run ops (world_of [] 1)) = [true; true; true; true] /\
  fixed_part <$> articles (snd (run ops (world_of [] 1)))
    = [(2, "B", "d", "c"); (3, "C", "d", "c")].
Proof. repeat split. Qed.

(** C1, as the specification states it, fails at the largest [int]: the
    empty store whose counter is [int_max] satisfies the counter invariant,
    and two Creates then return [int_max] and [int_min], in decreasing
    order, with the counter left below the first id. *)
Lemma ids_overflow_counterexample :
  let w := world_of [] int_max in
  let ops := [Create (req "A"); Create (req "B")] in
  counter_inv w /\
  created_ids (fst (run ops w)) = [int_max; int_min] /\
  ~ StronglySorted Z.lt (created_ids (fst (run ops w))) /\
  ~ Forall (fun i => i < nextID (snd (run ops w)))
      (created_ids (fst (run ops w))).
Proof.
  cbn zeta. split; [constructor|]. split; [reflexivity|]. split.
  - intros H.
    change (created_ids _) with [int_max; int_min] in H.
    apply StronglySorted_inv in H as [_ H].
    apply Forall_cons in H as [H _]. vm_compute in H. discriminate.
  - intros H.
    change (created_ids _) with [int_max; int_min] in H.
    apply Forall_cons in H as [H _]. vm_compute in H. discriminate.
Qed.

(** C1 (amended): from a state that satisfies the counter invariant and
    whose counter is an [int] that the sequence cannot push past the
    largest one, the ids returned by the successful Creates of a sequence
    of Create and Delete requests are strictly increasing in call order,
    hence pairwise distinct; the counter ends above every id assigned by
    the sequence and every id present before it; no id of the sequence is
    one that an earlier article bore; and the counter invariant holds
    again. *)
Theorem ids_unique_increasing (ops : list Op) (w : World) :
  counter_inv w ->
  in_range (nextID w) ->
  nextID w + Z.of_nat (length ops) <= int_max ->
  let outs := fst (run ops w) in
  let w' := snd (run ops w) in
  StronglySorted Z.lt (created_ids outs) /\
  NoDup (created_ids outs) /\
  Forall (fun i => i < nextID w') (created_ids outs) /\
  Forall (fun a => ID a < nextID w') (articles w) /\
  Forall (fun i => i ∉ (ID <$> articles w)) (created_ids outs) /\
  counter_inv w'.
Proof.
  intros Hinv Hr Hmax. cbn zeta.
  destruct (run_ids ops w Hr Hmax) as (Hb & Hs & Hall).
  assert (Hold : Forall (fun a => ID a < nextID (snd (run ops w))) (articles w)).
  { eapply Forall_impl; [exact Hinv|]. cbn. intros; lia. }
  assert (Hnew : Forall (fun i => i < nextID (snd (run ops w)))
                   (created_ids (fst (run ops w)))).
  { eapply Forall_impl; [exact Hall|]. cbn. intros; lia. }
  repeat split; try assumption.
  - clear -Hs. induction Hs as [|i l Hs IH Hi]; constructor; [|exact IH].
    intros Hin. rewrite Forall_forall in Hi. specialize (Hi _ Hin). lia.
  - eapply Forall_impl; [exact Hall|]. cbn. intros i Hi Hin.
    apply list_elem_of_fmap in Hin as (a & -> & Ha).
    unfold counter_inv in Hinv. rewrite Forall_forall in Hinv.
    specialize (Hinv _ Ha). lia.
  - unfold counter_inv.
    apply (Forall_sublist _ _ _ (run_sublist ops w)).
    apply Forall_app. split; [exact Hold|].
    unfold created_ids in Hnew. now apply Forall_fmap in Hnew.
Qed.

Lemma ids_unique_increasing_witness :
  let w := world_of (sampleArticles 0 0 0 0 0 0) 4 in
  let ops := [Create (req "A"); Delete 2; Create (req "B")] in
  StronglySorted Z.lt (created_ids (fst (run ops w))) /\
  counter_inv (snd (run ops w)).
Proof.
  intros w ops.
  destruct (ids_unique_increasing ops w) as (Hs & _ & _ & _ & _ & Hinv).
  - repeat constructor.
  - split; vm_compute; discriminate.
  - vm_compute; discriminate.
  - split; assumption.
Defined.

Lemma handle_cases (op : Op) (w : World) :
  (created (fst (handle op w)) = None /\
   removed_id op (fst (handle op w)) = None /\
   articles (snd (handle op w)) = articles w) \/
  (exists art,
     created (fst (handle op w)) = Some art /\
     removed_id op (fst (handle op w)) = None /\
     articles (snd (handle op w)) = articles w ++ [art]) \/
  (exists id l1 a l2,
     created (fst (handle op w)) = None /\
     removed_id op (fst (handle op w)) = Some id /\
     articles w = l1 ++ a :: l2 /\ ID a = id /\
     articles (snd (handle op w)) = l1 ++ l2).
Proof.
  destruct op as [a|id]; cbn [handle removed_id].
  - destruct (valid_dec a) as [Hv|Hm].
    + right. left. rewrite (createArticle_valid w a Hv).
      exists (stamped w a). repeat split; reflexivity.
    + left. rewrite (createArticle_invalid w a Hm). repeat split; reflexivity.
  - destruct (range_find_cases id (articles w))
      as [[Hf _]|(l1 & a & l2 & Hl & Hl1 & Ha)].
    + left. rewrite (deleteArticle_missing w id Hf). repeat split; reflexivity.
    + right. right. rewrite (deleteArticle_first w id a l1 l2 Hl Hl1 Ha).
      exists id, l1, a, l2. repeat split; auto.
Qed.

Lemma deleted_ids_cons (op : Op) (ops : list Op) (out : HttpOut)
    (outs : list HttpOut) :
  deleted_ids (op :: ops) (out :: outs) =
    match removed_id op out with
    | Some id => id :: deleted_ids ops outs
    | None => deleted_ids ops outs
    end.
Proof. reflexivity. Qed.

Lemma filter_sublist_impl (P Q : Article -> Prop)
    `{!forall a, Decision (P a)} `{!forall a, Decision (Q a)}
    (l : list Article) :
  (forall a, P a -> Q a) -> sublist (filter P l) (filter Q l).
Proof.
  intros HPQ. induction l as [|a l IH]; [constructor|].
  rewrite !filter_cons.
  destruct (decide (P a)) as [HP|HP], (decide (Q a)) as [HQ|HQ].
  - now apply sublist_skip.
  - destruct (HQ (HPQ a HP)).
  - now apply sublist_cons.
  - exact IH.
Qed.

(** Every article that was there before the sequence or that the sequence
    created, and whose id no successful Delete of the sequence named, is
    still in the collection, in the same order; and each successful Delete
    took exactly one article away. *)
Lemma run_survivors (ops : list Op) (w : World) :
  sublist
    (filter (fun a => ID a ∉ deleted_ids ops (fst (run ops w)))
       (articles w ++ created_articles (fst (run ops w))))
    (articles (snd (run ops w))) /\
  (length (articles (snd (run ops w)))
   + length (deleted_ids ops (fst (run ops w)))
   = length (articles w) + length (created_articles (fst (run ops w))))%nat.
Proof.
  revert w. induction ops as [|op rest IH]; intros w.
  - cbn [run ret fst snd deleted_ids created_articles omap].
    cbn. rewrite app_nil_r. split; [apply sublist_filter|lia].
  - rewrite run_cons. cbn [fst snd].
    rewrite created_articles_cons, deleted_ids_cons.
    destruct (IH (snd (handle op w))) as [IHs IHl].
    destruct (handle_cases op w)
      as [(Hc & Hr & Ha)|[(art & Hc & Hr & Ha)|(id & l1 & a & l2 & Hc & Hr & Hl & Hid & Ha)]];
      rewrite Hc, Hr; rewrite Ha in IHs, IHl.
    + split; [exact IHs|exact IHl].
    + rewrite <- app_assoc in IHs. split; [exact IHs|].
      rewrite length_app in IHl. cbn [length] in *. lia.
    + split.
      * rewrite Hl, <- !app_assoc, <- app_comm_cons.
        rewrite filter_app, filter_cons.
        destruct (decide (ID a ∉ id :: deleted_ids rest
                            (fst (run rest (snd (handle op w))))))
          as [Hnot|_].
        { exfalso. apply Hnot. rewrite Hid. apply list_elem_of_here. }
        rewrite <- filter_app, app_assoc.
        etransitivity; [|exact IHs].
        apply filter_sublist_impl. intros b Hb Hin. apply Hb.
        now apply list_elem_of_further.
      * rewrite Hl. rewrite !length_app in *. cbn [length] in *. lia.
Qed.

(** C7: after any sequence of Create and Delete requests, List answers with
    the collection. That collection is a subsequence of the articles
    present before the sequence followed by the articles the sequence
    created in call order; it holds, in that same order, every one of those
    articles whose id no successful Delete of the sequence named, so that a
    created article that was not deleted is listed, after every surviving
    article created earlier; and each successful Delete took exactly one
    article away. *)
Theorem list_preserves_insertion_order (ops : list Op) (w : World) :
  let outs := fst (run ops w) in
  let history := articles w ++ created_articles outs in
  let gone := deleted_ids ops outs in
  exists l,
    fst (getAllArticles (snd (run ops w))) =
      HttpJSON StatusOK
        (mkResponse "Articles retrieved successfully" (AllArticles l) "") /\
    l = articles (snd (run ops w)) /\
    sublist l history /\
    sublist (filter (fun a => ID a ∉ gone) history) l /\
    (forall a, a ∈ history -> (ID a ∉ gone) -> a ∈ l) /\
    (length l + length gone = length history)%nat.
Proof.
  cbn zeta. exists (articles (snd (run ops w))).
  destruct (run_survivors ops w) as [Hs Hl].
  split; [reflexivity|]. split; [reflexivity|].
  split; [apply run_sublist|]. split; [exact Hs|]. split.
  - intros a Ha Hnot. eapply elem_of_sublist; [|exact Hs].
    apply list_elem_of_filter. auto.
  - rewrite Hl. now rewrite length_app.
Qed.

Lemma list_preserves_insertion_order_witness :
  let w := world_of (sampleArticles 0 0 0 0 0 0) 4 in
  let ops := [Create (req "A"); Delete 2; Create (req "B")] in
  mkArticle 4 "A" "d" "c" 0 1 ∈ articles (snd (run ops w)) /\
  mkArticle 5 "B" "d" "c" 2 3 ∈ articles (snd (run ops w)).
Proof.
  intros w ops.
  destruct (list_preserves_insertion_order ops w)
    as (l & _ & -> & _ & _ & Hin & _).
  assert (Hc : created_articles (fst (run ops w))
               = [mkArticle 4 "A" "d" "c" 0 1; mkArticle 5 "B" "d" "c" 2 3])
    by reflexivity.
  rewrite Hc in Hin.
  split; apply Hin.
  - apply elem_of_app. right. apply list_elem_of_here.
  - apply (bool_decide_unpack _). vm_compute. exact I.
  - apply elem_of_app. right. apply list_elem_of_further, list_elem_of_here.
  - apply (bool_decide_unpack _). vm_compute. exact I.
Defined.

(** ** Locking and the dispatch of saves *)

Lemma emitted_nothing {A : Type} (m : M A) (w : World) :
  trace (snd (m w)) = trace w -> emitted m w = [].
Proof. intros H. unfold emitted. rewrite H. apply drop_all. Qed.

Lemma emitted_app {A : Type} (m : M A) (w : World) (evs : list Event) :
  trace (snd (m w)) = trace w ++ evs -> emitted m w = evs.
Proof. intros H. unfold emitted. rewrite H. apply drop_app_length. Qed.

(** What a mutating handler does with the mutex: nothing when it rejects
    the request before locking, lock and unlock when the id is not found,
    and lock, dispatch, unlock when it changes the collection. *)
Lemma mutate_trace (m : Mutation) (w : World) :
  (succeeded (fst (mutate m w)) = false /\
   (trace (snd (mutate m w)) = trace w \/
    trace (snd (mutate m w)) = trace w ++ [EvLock; EvUnlock])) \/
  (succeeded (fst (mutate m w)) = true /\
   trace (snd (mutate m w)) = trace w ++ [EvLock; EvGoSave; EvUnlock]).
Proof.
  destruct m as [[a|]|[id|] [u|]|[id|]]; cbn [mutate];
    try (left; split; [reflexivity|left; reflexivity]).
  - destruct (valid_dec a) as [Hv|Hm].
    + right. rewrite (createArticle_valid w a Hv). split; reflexivity.
    + left. rewrite (createArticle_invalid w a Hm).
      split; [reflexivity|left; reflexivity].
  - destruct (range_find_cases id (articles w))
      as [[Hf _]|(l1 & a & l2 & Hl & Hl1 & Ha)].
    + left. rewrite (updateArticle_missing w id u Hf).
      split; [reflexivity|right; reflexivity].
    + right. rewrite (updateArticle_found w id u a l1 l2 Hl Hl1 Ha).
      split; reflexivity.
  - destruct (range_find_cases id (articles w))
      as [[Hf _]|(l1 & a & l2 & Hl & Hl1 & Ha)].
    + left. rewrite (deleteArticle_missing w id Hf).
      split; [reflexivity|right; reflexivity].
    + right. rewrite (deleteArticle_first w id a l1 l2 Hl Hl1 Ha).
      split; reflexivity.
Qed.

Lemma saveArticles_trace (enc : Snapshot -> option Bytes) (w : World) :
  create_ok (disk w) = true ->
  emitted (saveArticles enc) w = [EvRLock; EvRUnlock].
Proof.
  intros Hc. apply emitted_app.
  destruct w as [l n c t [f ok] tr]. cbn in Hc. subst ok.
  unfold saveArticles, os_Create, file_Write. unfold_monad.
  destruct (enc (mkSnapshot l n)); cbn; now rewrite <- app_assoc.
Qed.

(** C9, as the specification states it, fails: in a successful Create the
    save is dispatched between [Lock] and the deferred [Unlock]. *)
Lemma dispatch_counterexample :
  emitted (mutate (MCreate (Some (req "A")))) (world_of [] 1)
    = [EvLock; EvGoSave; EvUnlock] /\
  released_before_dispatch
    (emitted (mutate (MCreate (Some (req "A")))) (world_of [] 1)) = false.
Proof. split; reflexivity. Qed.

(** C9 (amended): every mutation (Create, Update, Delete) that succeeds
    takes the write lock, dispatches the asynchronous save while it still
    holds the lock, and releases the lock last, when the handler returns; a
    mutation that fails dispatches nothing. At the moment of the dispatch
    the read lock that the save asks for cannot be granted, the mutex is
    free again once the handler has returned, and while a save holds the
    read lock the write lock of a mutation cannot be granted. *)
Theorem dispatch_under_lock (m : Mutation) (w : World) :
  let evs := emitted (mutate m) w in
  trace (snd (mutate m w)) = trace w ++ evs /\
  (succeeded (fst (mutate m w)) = true ->
   evs = [EvLock; EvGoSave; EvUnlock]) /\
  (succeeded (fst (mutate m w)) = false -> ~ (EvGoSave ∈ evs)) /\
  held_at_dispatch evs = true /\
  ((EvGoSave ∈ evs) ->
   released_before_dispatch evs = false /\
   exists locked,
     rw_run rw_free [EvLock; EvGoSave] = Some locked /\
     rw_step locked EvRLock = None) /\
  rw_run rw_free evs = Some rw_free /\
  (forall enc w2, create_ok (disk w2) = true ->
     emitted (saveArticles enc) w2 = [EvRLock; EvRUnlock]) /\
  (exists reading,
     rw_run rw_free [EvRLock] = Some reading /\
     rw_step reading EvLock = None).
Proof.
  cbn zeta.
  assert (Hsave : (forall enc w2, create_ok (disk w2) = true ->
            emitted (saveArticles enc) w2 = [EvRLock; EvRUnlock]) /\
          (exists reading,
             rw_run rw_free [EvRLock] = Some reading /\
             rw_step reading EvLock = None)).
  { split; [intros; now apply saveArticles_trace|].
    exists (mkRW false 1). split; reflexivity. }
  assert (Hno : forall evs : list Event,
            evs = [] \/ evs = [EvLock; EvUnlock] -> ~ (EvGoSave ∈ evs)).
  { intros evs [->| ->] Hin; [inversion Hin|].
    repeat (apply elem_of_cons in Hin as [Hin|Hin]; [discriminate|]).
    inversion Hin. }
  destruct (mutate_trace m w) as [[Hs [Ht|Ht]]|[Hs Ht]].
  - rewrite (emitted_nothing _ _ Ht), Hs, app_nil_r.
    split; [exact Ht|]. split; [discriminate|]. split; [intros _; apply Hno; auto|].
    split; [reflexivity|]. split; [intros H; destruct (Hno [] (or_introl eq_refl) H)|].
    split; [reflexivity|exact Hsave].
  - rewrite (emitted_app _ _ _ Ht), Hs.
    split; [exact Ht|]. split; [discriminate|]. split; [intros _; apply Hno; auto|].
    split; [reflexivity|].
    split; [intros H; destruct (Hno _ (or_intror eq_refl) H)|].
    split; [reflexivity|exact Hsave].
  - rewrite (emitted_app _ _ _ Ht), Hs.
    split; [exact Ht|]. split; [reflexivity|]. split; [discriminate|].
    split; [reflexivity|]. split; [|split; [reflexivity|exact Hsave]].
    intros _. split; [reflexivity|].
    exists (mkRW true 0). split; reflexivity.
Qed.

Lemma dispatch_under_lock_witness :
  emitted (mutate (MDelete (Some 1))) (world_of [req "A"] 1) = [EvLock; EvUnlock]
  \/ emitted (mutate (MCreate (Some (req "A")))) (world_of [] 1)
      = [EvLock; EvGoSave; EvUnlock].
Proof.
  right.
  destruct (dispatch_under_lock (MCreate (Some (req "A"))) (world_of [] 1))
    as (_ & H & _).
  apply H. reflexivity.
Defined.

(** ** Load or seed *)

Section LoadOrSeed.

Variable gob_encode : Snapshot -> option Bytes.
Variable gob_decode : Bytes -> option Snapshot.

Lemma loadArticles_error (w : World) :
  load_fails gob_decode w ->
  exists e evs,
    loadArticles gob_decode w =
      (Some e,
       mkWorld (articles w) (nextID w) (clock w) (ticks w) (disk w)
         (trace w ++ evs)).
Proof.
  intros Hf. destruct w as [l n c t [f ok] tr].
  unfold load_fails in Hf. cbn in Hf.
  unfold loadArticles, os_Open. unfold_monad.
  destruct Hf as [->|[->|(b & -> & Hd)]].
  - exists ErrOpen, []. now rewrite app_nil_r.
  - exists ErrOpen, []. now rewrite app_nil_r.
  - rewrite Hd. exists ErrDecode, [EvLock; EvUnlock]. cbn.
    now rewrite <- app_assoc.
Qed.

Lemma loadArticles_ok (w : World) (b : Bytes) (data : Snapshot) :
  dataFile (disk w) = File b -> gob_decode b = Some data ->
  loadArticles gob_decode w =
    (None,
     mkWorld (Articles data) (NextID data) (clock w) (ticks w) (disk w)
       (trace w ++ [EvLock; EvUnlock])).
Proof.
  intros Hf Hd. destruct w as [l n c t [f ok] tr]. cbn in Hf. subst f.
  unfold loadArticles, os_Open. unfold_monad. rewrite Hd. cbn.
  now rewrite <- app_assoc.
Qed.

Lemma createSampleData_eq (w : World) :
  createSampleData w =
    (tt,
     mkWorld (seed w) 4 (clock w) (6 + ticks w) (disk w)
       (trace w ++ [EvLock; EvUnlock])).
Proof.
  destruct w as [l n c t d tr].
  unfold createSampleData, seed.
  lazy -[sampleArticles app Nat.add].
  now rewrite <- app_assoc.
Qed.

Lemma saveArticles_ok (w : World) (b : Bytes) :
  create_ok (disk w) = true ->
  gob_encode (mkSnapshot (articles w) (nextID w)) = Some b ->
  saveArticles gob_encode w =
    (None,
     mkWorld (articles w) (nextID w) (clock w) (ticks w) (mkDisk (File b) true)
       (trace w ++ [EvRLock; EvRUnlock])).
Proof.
  intros Hc He. destruct w as [l n c t [f ok] tr]. cbn in *. subst ok.
  unfold saveArticles, os_Create, file_Write. unfold_monad. rewrite He. cbn.
  now rewrite <- app_assoc.
Qed.

Lemma saveArticles_store (w : World) :
  articles (snd (saveArticles gob_encode w)) = articles w /\
  nextID (snd (saveArticles gob_encode w)) = nextID w.
Proof.
  destruct w as [l n c t [f ok] tr].
  unfold saveArticles, os_Create, file_Write. unfold_monad.
  destruct ok; cbn; [|auto].
  destruct (gob_encode (mkSnapshot l n)); cbn; auto.
Qed.

(** The persistence code around the codec: a save that succeeds followed by
    a load gives the collection and the counter back, for an encoder and a
    decoder that round-trip the snapshot. *)
Lemma save_then_load (w : World) (b : Bytes) :
  create_ok (disk w) = true ->
  gob_encode (mkSnapshot (articles w) (nextID w)) = Some b ->
  gob_decode b = Some (mkSnapshot (articles w) (nextID w)) ->
  let w' := snd (saveArticles gob_encode w) in
  fst (loadArticles gob_decode w') = None /\
  articles (snd (loadArticles gob_decode w')) = articles w /\
  nextID (snd (loadArticles gob_decode w')) = nextID w.
Proof.
  intros Hc He Hd. cbn zeta.
  rewrite (saveArticles_ok w b Hc He). cbn [snd].
  erewrite loadArticles_ok; [|reflexivity|exact Hd].
  cbn [fst snd articles nextID Articles NextID]. auto.
Qed.

(** The seed state satisfies the collection invariant. *)
Lemma createSampleData_inv (w : World) :
  counter_inv (snd (createSampleData w)) /\
  unique_ids (snd (createSampleData w)).
Proof.
  rewrite createSampleData_eq. cbn [snd]. split.
  - unfold counter_inv, seed. cbn [articles nextID sampleArticles].
    repeat constructor.
  - unfold unique_ids, seed. cbn [articles sampleArticles].
    apply (bool_decide_unpack _). vm_compute. exact I.
Qed.

Lemma initDatabase_seed (w : World) :
  load_fails gob_decode w ->
  exists evs,
    initDatabase gob_encode gob_decode w =
      (tt,
       snd (saveArticles gob_encode
              (mkWorld (seed w) 4 (clock w) (6 + ticks w) (disk w)
                 (trace w ++ evs)))) /\
    snd (createSampleData (snd (loadArticles gob_decode w))) =
      mkWorld (seed w) 4 (clock w) (6 + ticks w) (disk w) (trace w ++ evs).
Proof.
  intros Hf.
  destruct (loadArticles_error w Hf) as (e & evs & Hload).
  exists (evs ++ [EvLock; EvUnlock]).
  unfold initDatabase. unfold bind at 1. rewrite Hload.
  unfold bind at 1. rewrite createSampleData_eq.
  unfold bind at 1. cbn [snd].
  rewrite createSampleData_eq.
  unfold seed. cbn [articles nextID clock ticks disk trace].
  rewrite <- app_assoc.
  split; [|reflexivity].
  now destruct (saveArticles gob_encode _).
Qed.

Lemma fixed_part_sample (t1 t2 t3 t4 t5 t6 : Time) :
  fixed_part <$> sampleArticles t1 t2 t3 t4 t5 t6
  = fixed_part <$> sampleArticles 0 0 0 0 0 0.
Proof. reflexivity. Qed.

(** C8: when the data file is missing, unreadable or does not decode,
    start-up drops the load error, installs the three seed articles with
    counter 4, and then runs one save in the same thread. When that save
    can create the file and encode the snapshot, the file holds the
    encoded seed snapshot, and when the decoder gives that snapshot back,
    a later load of that file, from any store whatever (a fresh process
    included), succeeds and installs the seed articles and the counter 4;
    so does a second start-up on that file. *)
Theorem load_or_seed (w : World) :
  load_fails gob_decode w ->
  let w' := snd (initDatabase gob_encode gob_decode w) in
  articles w' = seed w /\
  nextID w' = 4 /\
  fixed_part <$> articles w' = fixed_part <$> sampleArticles 0 0 0 0 0 0 /\
  w' = snd (saveArticles gob_encode
              (snd (createSampleData (snd (loadArticles gob_decode w))))) /\
  (forall b,
     create_ok (disk w) = true ->
     gob_encode (mkSnapshot (seed w) 4) = Some b ->
     dataFile (disk w') = File b /\
     (gob_decode b = Some (mkSnapshot (seed w) 4) ->
      forall w2,
        disk w2 = disk w' ->
        fst (loadArticles gob_decode w2) = None /\
        articles (snd (loadArticles gob_decode w2)) = seed w /\
        nextID (snd (loadArticles gob_decode w2)) = 4 /\
        articles (snd (initDatabase gob_encode gob_decode w2)) = seed w /\
        nextID (snd (initDatabase gob_encode gob_decode w2)) = 4)).
Proof.
  intros Hf. cbn zeta.
  destruct (initDatabase_seed w Hf) as (evs & Hinit & Hw1).
  rewrite Hinit, Hw1. cbn [snd].
  set (w1 := mkWorld (seed w) 4 (clock w) (6 + ticks w) (disk w) (trace w ++ evs)).
  destruct (saveArticles_store w1) as [Ha Hn].
  rewrite Ha, Hn. cbn [w1 articles nextID].
  split; [reflexivity|]. split; [reflexivity|].
  split; [apply fixed_part_sample|]. split; [reflexivity|].
  intros b Hc He.
  rewrite (saveArticles_ok w1 b Hc He).
  cbn [snd disk dataFile]. split; [reflexivity|].
  intros Hd w2 Hdisk.
  assert (Hfile : dataFile (disk w2) = File b) by now rewrite Hdisk.
  assert (Hload := loadArticles_ok w2 b (mkSnapshot (seed w) 4) Hfile Hd).
  assert (Hinit2 : snd (initDatabase gob_encode gob_decode w2)
                   = snd (loadArticles gob_decode w2)).
  { unfold initDatabase, bind. now rewrite Hload. }
  rewrite Hinit2, Hload.
  cbn [fst snd articles nextID Articles NextID]. auto.
Qed.

End LoadOrSeed.

(** ** The reference codec round-trips *)

Lemma ref_dec_enc_pos (p : positive) (rest : Bytes) :
  RefCodec.dec_pos (RefCodec.enc_pos p ++ rest) = Some (p, rest).
Proof. induction p as [p IH|p IH|]; cbn; rewrite ?IH; reflexivity. Qed.

Lemma ref_dec_enc_Z (z : Z) (rest : Bytes) :
  RefCodec.dec_Z (RefCodec.enc_Z z ++ rest) = Some (z, rest).
Proof.
  destruct z; cbn; unfold RefCodec.pbind; rewrite ?ref_dec_enc_pos; reflexivity.
Qed.

Lemma ref_dec_enc_string (s : string) (rest : Bytes) :
  RefCodec.dec_string (RefCodec.enc_string s ++ rest) = Some (s, rest).
Proof.
  induction s as [|c s IH]; cbn; [reflexivity|].
  now rewrite IH, ascii_of_byte_of_ascii.
Qed.

Lemma ref_dec_enc_article (a : Article) (rest : Bytes) :
  RefCodec.dec_article (RefCodec.enc_article a ++ rest) = Some (a, rest).
Proof.
  destruct a as [i ti de co cr up].
  unfold RefCodec.enc_article, RefCodec.dec_article, RefCodec.pbind. cbn.
  rewrite <- !app_assoc.
  rewrite ref_dec_enc_Z, !ref_dec_enc_string, !ref_dec_enc_Z. reflexivity.
Qed.

Lemma ref_dec_enc_articles (l : list Article) (rest : Bytes) (fuel : nat) :
  (length l < fuel)%nat ->
  RefCodec.dec_articles fuel (RefCodec.enc_articles l ++ rest) = Some (l, rest).
Proof.
  revert fuel. induction l as [|a l IH]; intros [|fuel] Hlt; cbn in *;
    try lia; [reflexivity|].
  rewrite <- app_assoc, ref_dec_enc_article, IH by lia. reflexivity.
Qed.

Lemma ref_enc_articles_length (l : list Article) :
  (length l < length (RefCodec.enc_articles l))%nat.
Proof.
  induction l as [|a l IH]; cbn; [lia|]. rewrite length_app. lia.
Qed.

Lemma ref_roundtrip (s : Snapshot) (b : Bytes) :
  RefCodec.encode s = Some b -> RefCodec.decode b = Some s.
Proof.
  destruct s as [l n]. unfold RefCodec.encode, RefCodec.decode.
  cbn [Articles NextID]. intros [= <-].
  rewrite ref_dec_enc_articles.
  - rewrite <- (app_nil_r (RefCodec.enc_Z n)), ref_dec_enc_Z. reflexivity.
  - pose proof (ref_enc_articles_length l). rewrite length_app. lia.
Qed.

Lemma load_or_seed_witness :
  let w := world_of [] 1 in
  let w' := snd (initDatabase RefCodec.encode RefCodec.decode w) in
  let restarted := mkWorld [] 1 tick_clock 0 (disk w') [] in
  articles w' = seed w /\ nextID w' = 4 /\
  fst (loadArticles RefCodec.decode restarted) = None /\
  articles (snd (loadArticles RefCodec.decode restarted)) = seed w /\
  nextID (snd (loadArticles RefCodec.decode restarted)) = 4.
Proof.
  intros w w' restarted.
  destruct (load_or_seed RefCodec.encode RefCodec.decode w) as
    (Ha & Hn & _ & _ & Hsave).
  - left. reflexivity.
  - destruct (Hsave _ eq_refl eq_refl) as (_ & Hload).
    destruct (Hload (ref_roundtrip _ _ eq_refl) restarted eq_refl)
      as (He & Hl & Hc & _).
    repeat split; assumption.
Defined.

(** * Further properties of the handlers *)

(** ** Looking an article up by id *)

Lemma range_find_article (id : Z) (l : list Article) (k : nat) :
  snd <$> range_find id l k = lookup_id id l.
Proof.
  unfold lookup_id. generalize 0%nat as k'. revert k.
  induction l as [|a l IH]; intros k k'; cbn [range_find]; [reflexivity|].
  destruct (ID a =? id); [reflexivity|]. apply IH.
Qed.

Lemma lookup_id_cons (id : Z) (a : Article) (l : list Article) :
  lookup_id id (a :: l) = if ID a =? id then Some a else lookup_id id l.
Proof.
  unfold lookup_id at 1. cbn [range_find].
  destruct (ID a =? id); [reflexivity|]. apply range_find_article.
Qed.

Lemma lookup_id_app (id : Z) (l1 l2 : list Article) :
  lookup_id id (l1 ++ l2) =
    match lookup_id id l1 with
    | Some a => Some a
    | None => lookup_id id l2
    end.
Proof.
  induction l1 as [|a l1 IH]; [reflexivity|].
  rewrite <- app_comm_cons, !lookup_id_cons.
  destruct (ID a =? id); [reflexivity|exact IH].
Qed.

Lemma lookup_id_None (id : Z) (l : list Article) :
  lookup_id id l = None <-> id ∉ (ID <$> l).
Proof.
  unfold lookup_id. rewrite <- Forall_ne_notin, <- (range_find_None id l 0).
  destruct (range_find id l 0); cbn; split; intros; congruence.
Qed.

Lemma lookup_id_Some (id : Z) (l : list Article) (a : Article) :
  lookup_id id l = Some a <->
  exists l1 l2,
    l = l1 ++ a :: l2 /\ ID a = id /\ Forall (fun b => ID b <> id) l1.
Proof.
  unfold lookup_id. split.
  - destruct (range_find id l 0) as [[i b]|] eqn:Hf; [|discriminate].
    intros [= <-].
    destruct (range_find_Some _ _ _ _ _ Hf) as (l1 & l2 & ? & _ & ? & ?).
    exists l1, l2. auto.
  - intros (l1 & l2 & -> & Ha & Hl1).
    now rewrite (range_find_first id l1 l2 a 0 Hl1 Ha).
Qed.

(** ** The read handlers in full *)

Lemma getArticle_eq (w : World) (id : Z) :
  getArticle (Some id) w =
    (found_response (lookup_id id (articles w)),
     mkWorld (articles w) (nextID w) (clock w) (ticks w) (disk w)
       (trace w ++ [EvRLock; EvRUnlock])).
Proof.
  destruct w as [l n c t d tr]. unfold getArticle, lookup_id. unfold_monad.
  destruct (range_find id l 0) as [[i a]|]; cbn;
    now rewrite <- app_assoc.
Qed.

Lemma getAllArticles_eq (w : World) :
  getAllArticles w =
    (HttpJSON StatusOK
       (mkResponse "Articles retrieved successfully"
          (AllArticles (articles w)) ""),
     mkWorld (articles w) (nextID w) (clock w) (ticks w) (disk w)
       (trace w ++ [EvRLock; EvRUnlock])).
Proof.
  destruct w as [l n c t d tr]. unfold getAllArticles. unfold_monad.
  now rewrite <- app_assoc.
Qed.

(** ** Get *)

(** X1: Get answers with an article exactly when some article bears the id,
    and the article it returns is the first one of the sequence that bears
    it; otherwise it answers NotFound. It leaves the collection, the
    counter, the clock and the data file as they are, and takes and releases
    the read lock. *)
Theorem get_by_id (w : World) (id : Z) :
  let out := fst (getArticle (Some id) w) in
  let w' := snd (getArticle (Some id) w) in
  (succeeded out = true <-> (id ∈ (ID <$> articles w))) /\
  (forall a,
     out = HttpJSON StatusOK
             (mkResponse "Article retrieved successfully" (OneArticle a) "")
     <-> exists l1 l2,
           articles w = l1 ++ a :: l2 /\ ID a = id /\
           Forall (fun b => ID b <> id) l1) /\
  (succeeded out = false -> out = NotFound) /\
  same_store w' w /\
  emitted (getArticle (Some id)) w = [EvRLock; EvRUnlock].
Proof.
  cbn zeta. rewrite !getArticle_eq. cbn [fst snd].
  split; [|split; [|split; [|split]]].
  - destruct (lookup_id id (articles w)) as [a|] eqn:Hl; cbn.
    + split; [intros _|reflexivity].
      apply lookup_id_Some in Hl as (l1 & l2 & -> & <- & _).
      rewrite fmap_app, fmap_cons. apply elem_of_app. right.
      apply list_elem_of_here.
    + apply lookup_id_None in Hl. split; [discriminate|tauto].
  - intros a. rewrite <- lookup_id_Some.
    destruct (lookup_id id (articles w)) as [b|]; cbn; split;
      intros H; try discriminate; inversion H; reflexivity.
  - destruct (lookup_id id (articles w)); cbn; [discriminate|reflexivity].
  - repeat split.
  - apply emitted_app. rewrite getArticle_eq. reflexivity.
Qed.

(** ** Requests that are turned down *)

(** X2: a request is answered with 400 Bad Request exactly when its path
    parameter is no number, its body does not decode, or it is a Create that
    lacks a required field; the answer does not depend on the store, the
    handler then returns before it takes the lock, and the world is
    unchanged. For an Update the path parameter is checked before the
    body. *)
Theorem bad_request (r : Request) (w : World) :
  (status (fst (serve r w)) = StatusBadRequest <-> rejected r = true) /\
  (rejected r = true -> snd (serve r w) = w) /\
  (forall body,
     fst (updateArticle None body w)
     = HttpError StatusBadRequest "Invalid article ID").
Proof.
  split; [|split; [|reflexivity]].
  - destruct r as [| |[id|]|[a|]|[id|] [u|]|[id|]]; cbn [serve rejected].
    + split; discriminate.
    + rewrite getAllArticles_eq. split; discriminate.
    + rewrite getArticle_eq. cbn [fst].
      destruct (lookup_id id (articles w)); split; discriminate.
    + split; reflexivity.
    + destruct (valid_dec a) as [Hv|Hm].
      * rewrite (createArticle_valid w a Hv), (required_present a Hv).
        split; discriminate.
      * rewrite (createArticle_invalid w a Hm), (proj2 (required_missing a) Hm).
        split; reflexivity.
    + split; reflexivity.
    + destruct (range_find_cases id (articles w))
        as [[Hf _]|(l1 & a & l2 & Hl & Hl1 & Ha)].
      * rewrite (updateArticle_missing w id u Hf). split; discriminate.
      * rewrite (updateArticle_found w id u a l1 l2 Hl Hl1 Ha).
        split; discriminate.
    + split; reflexivity.
    + split; reflexivity.
    + split; reflexivity.
    + destruct (range_find_cases id (articles w))
        as [[Hf _]|(l1 & a & l2 & Hl & Hl1 & Ha)].
      * rewrite (deleteArticle_missing w id Hf). split; discriminate.
      * rewrite (deleteArticle_first w id a l1 l2 Hl Hl1 Ha).
        split; discriminate.
    + split; reflexivity.
  - destruct r as [| |[id|]|[a|]|[id|] [u|]|[id|]]; cbn [serve rejected];
      try discriminate; try reflexivity.
    intros Hm. apply required_missing in Hm.
    now rewrite (createArticle_invalid w a Hm).
Qed.

(** X3: among the requests that match one of the six routes that
    [handleRequests] registers, a handler answers with 404 Not Found
    exactly when the request is a well-formed Get, Update or Delete whose
    id no article bears; the collection, the counter, the clock and the
    data file are then unchanged and no save is dispatched. What the router
    itself answers to a request that matches no route is not covered. *)
Theorem not_found (r : Request) (w : World) :
  (status (fst (serve r w)) = StatusNotFound
   <-> exists id, addressed r = Some id /\ (id ∉ (ID <$> articles w))) /\
  (status (fst (serve r w)) = StatusNotFound ->
   fst (serve r w) = NotFound /\
   same_store (snd (serve r w)) w /\
   ~ (EvGoSave ∈ emitted (serve r) w)).
Proof.
  assert (Hno : forall evs : list Event,
            evs = [EvRLock; EvRUnlock] \/ evs = [EvLock; EvUnlock] ->
            ~ (EvGoSave ∈ evs)).
  { intros evs [->| ->] Hin;
      repeat (apply elem_of_cons in Hin as [Hin|Hin]; [discriminate|]);
      inversion Hin. }
  assert (Hin : forall (id : Z) (l1 l2 : list Article) (a : Article),
            articles w = l1 ++ a :: l2 -> ID a = id ->
            id ∈ (ID <$> articles w)).
  { intros id l1 l2 a Hl Ha. rewrite Hl, fmap_app, fmap_cons, Ha.
    apply elem_of_app. right. apply list_elem_of_here. }
  destruct r as [| |[id|]|[a|]|[id|] [u|]|[id|]]; cbn [serve addressed].
  - split; [split; [discriminate|intros (? & [=] & _)]|discriminate].
  - rewrite getAllArticles_eq.
    split; [split; [discriminate|intros (? & [=] & _)]|discriminate].
  - rewrite (emitted_app _ _ _ (f_equal (fun p => trace (snd p)) (getArticle_eq w id))).
    rewrite getArticle_eq. cbn [fst snd].
    destruct (lookup_id id (articles w)) as [a|] eqn:Hl; cbn [found_response status].
    + apply lookup_id_Some in Hl as (l1 & l2 & Hl & Ha & _).
      split; [split; [discriminate|]|discriminate].
      intros (j & [= <-] & Hnot). destruct (Hnot (Hin _ _ _ _ Hl Ha)).
    + apply lookup_id_None in Hl.
      split; [split; [intros _; eauto|reflexivity]|].
      intros _. split; [reflexivity|]. split; [repeat split|apply Hno; auto].
  - split; [split; [discriminate|intros (? & [=] & _)]|discriminate].
  - destruct (valid_dec a) as [Hv|Hm].
    + rewrite (createArticle_valid w a Hv).
      split; [split; [discriminate|intros (? & [=] & _)]|discriminate].
    + rewrite (createArticle_invalid w a Hm).
      split; [split; [discriminate|intros (? & [=] & _)]|discriminate].
  - split; [split; [discriminate|intros (? & [=] & _)]|discriminate].
  - destruct (range_find_cases id (articles w))
      as [[Hf Hall]|(l1 & a & l2 & Hl & Hl1 & Ha)].
    + rewrite (emitted_app _ _ [EvLock; EvUnlock]
                 (f_equal (fun p => trace (snd p)) (updateArticle_missing w id u Hf))).
      rewrite (updateArticle_missing w id u Hf). cbn [fst snd].
      apply Forall_ne_notin in Hall.
      split; [split; [intros _; eauto|reflexivity]|].
      intros _. split; [reflexivity|]. split; [repeat split|apply Hno; auto].
    + rewrite (updateArticle_found w id u a l1 l2 Hl Hl1 Ha).
      split; [split; [discriminate|]|discriminate].
      intros (j & [= <-] & Hnot). destruct (Hnot (Hin _ _ _ _ Hl Ha)).
  - split; [split; [discriminate|intros (? & [=] & _)]|discriminate].
  - split; [split; [discriminate|intros (? & [=] & _)]|discriminate].
  - split; [split; [discriminate|intros (? & [=] & _)]|discriminate].
  - destruct (range_find_cases id (articles w))
      as [[Hf Hall]|(l1 & a & l2 & Hl & Hl1 & Ha)].
    + rewrite (emitted_app _ _ [EvLock; EvUnlock]
                 (f_equal (fun p => trace (snd p)) (deleteArticle_missing w id Hf))).
      rewrite (deleteArticle_missing w id Hf). cbn [fst snd].
      apply Forall_ne_notin in Hall.
      split; [split; [intros _; eauto|reflexivity]|].
      intros _. split; [reflexivity|]. split; [repeat split|apply Hno; auto].
    + rewrite (deleteArticle_first w id a l1 l2 Hl Hl1 Ha).
      split; [split; [discriminate|]|discriminate].
      intros (j & [= <-] & Hnot). destruct (Hnot (Hin _ _ _ _ Hl Ha)).
  - split; [split; [discriminate|intros (? & [=] & _)]|discriminate].
Qed.

(** ** Update keeps the identity of the articles *)

Lemma update_ids_eq (w : World) (id : Z) (u : Article) :
  ID <$> articles (snd (updateArticle (Some id) (Some u) w))
    = ID <$> articles w /\
  nextID (snd (updateArticle (Some id) (Some u) w)) = nextID w.
Proof.
  destruct (range_find_cases id (articles w))
    as [[Hf _]|(l1 & a & l2 & Hl & Hl1 & Ha)].
  - rewrite (updateArticle_missing w id u Hf). split; reflexivity.
  - rewrite (updateArticle_found w id u a l1 l2 Hl Hl1 Ha).
    cbn [snd articles nextID]. rewrite Hl, !fmap_app, !fmap_cons.
    split; reflexivity.
Qed.

(** X4: whatever its arguments and its outcome, Update leaves the ids and
    the creation times of the collection, position by position, and the
    counter as they were; hence it keeps the counter above every id and the
    ids unique. *)
Theorem update_keeps_ids (id_arg : option Z) (body : option Article)
    (w : World) :
  let w' := snd (updateArticle id_arg body w) in
  ID <$> articles w' = ID <$> articles w /\
  Created <$> articles w' = Created <$> articles w /\
  nextID w' = nextID w /\
  (counter_inv w -> counter_inv w') /\
  (unique_ids w -> unique_ids w').
Proof.
  cbn zeta.
  assert (H : ID <$> articles (snd (updateArticle id_arg body w))
                = ID <$> articles w /\
              Created <$> articles (snd (updateArticle id_arg body w))
                = Created <$> articles w /\
              nextID (snd (updateArticle id_arg body w)) = nextID w).
  { destruct id_arg as [id|], body as [u|]; try (repeat split; reflexivity).
    destruct (range_find_cases id (articles w))
      as [[Hf _]|(l1 & a & l2 & Hl & Hl1 & Ha)].
    - rewrite (updateArticle_missing w id u Hf). repeat split; reflexivity.
    - rewrite (updateArticle_found w id u a l1 l2 Hl Hl1 Ha).
      cbn [snd articles nextID]. rewrite Hl, !fmap_app, !fmap_cons.
      repeat split; reflexivity. }
  destruct H as (Hid & Hcr & Hn). repeat split; try assumption.
  - unfold counter_inv. intros Hinv.
    apply (Forall_fmap ID (fun i => i < nextID (snd (updateArticle id_arg body w)))).
    rewrite Hid, Hn.
    apply (Forall_fmap ID (fun i => i < nextID w)). exact Hinv.
  - unfold unique_ids. now rewrite Hid.
Qed.

(** ** How the operations compose *)

Lemma lookup_id_fresh (id : Z) (l : list Article) (a : Article) :
  id ∉ (ID <$> l) -> ID a = id -> lookup_id id (l ++ [a]) = Some a.
Proof.
  intros Hl Ha. rewrite lookup_id_app, (proj2 (lookup_id_None id l) Hl).
  rewrite lookup_id_cons, (proj2 (Z.eqb_eq _ _) Ha). reflexivity.
Qed.

(** X5: when no article bears the value of the counter (as under the
    counter invariant), a successful Create followed by Get of the id it
    returned answers with exactly the article that Create returned. *)
Theorem create_then_get (w : World) (a : Article) :
  valid a ->
  nextID w ∉ (ID <$> articles w) ->
  exists art,
    created (fst (createArticle (Some a) w)) = Some art /\
    fst (getArticle (Some (ID art)) (snd (createArticle (Some a) w))) =
      HttpJSON StatusOK
        (mkResponse "Article retrieved successfully" (OneArticle art) "").
Proof.
  intros Hv Hfresh. exists (stamped w a).
  rewrite (createArticle_valid w a Hv). cbn [fst snd].
  split; [reflexivity|].
  rewrite getArticle_eq. cbn [fst articles].
  change (ID (stamped w a)) with (nextID w).
  now rewrite (lookup_id_fresh (nextID w) (articles w) (stamped w a) Hfresh eq_refl).
Qed.

Lemma create_then_get_witness :
  fst (getArticle (Some 4)
         (snd (createArticle (Some (req "A"))
                 (world_of (sampleArticles 0 0 0 0 0 0) 4))))
  = HttpJSON StatusOK
      (mkResponse "Article retrieved successfully"
         (OneArticle (mkArticle 4 "A" "d" "c" 0 1)) "").
Proof.
  destruct (create_then_get (world_of (sampleArticles 0 0 0 0 0 0) 4) (req "A"))
    as (art & Hc & Hg).
  - repeat split; discriminate.
  - apply (bool_decide_unpack _). vm_compute. exact I.
  - injection Hc as <-. exact Hg.
Defined.

(** X6: when no article bears the value of the counter, a successful Create
    followed by Delete of the new id gives the collection back as it was,
    while the counter stays advanced: the id is not handed out again. *)
Theorem create_then_delete (w : World) (a : Article) :
  valid a ->
  nextID w ∉ (ID <$> articles w) ->
  let w1 := snd (createArticle (Some a) w) in
  let w2 := snd (deleteArticle (Some (nextID w)) w1) in
  succeeded (fst (deleteArticle (Some (nextID w)) w1)) = true /\
  articles w2 = articles w /\
  nextID w2 = wrap (nextID w + 1).
Proof.
  intros Hv Hfresh. cbn zeta.
  rewrite (createArticle_valid w a Hv). cbn [snd].
  erewrite (deleteArticle_first _ (nextID w) (stamped w a) (articles w) []);
    [|reflexivity|now apply Forall_ne_notin|reflexivity].
  cbn [fst snd succeeded articles nextID]. now rewrite app_nil_r.
Qed.

Lemma create_then_delete_witness :
  let w := world_of (sampleArticles 0 0 0 0 0 0) 4 in
  articles (snd (deleteArticle (Some 4) (snd (createArticle (Some (req "A")) w))))
  = articles w.
Proof.
  intros w.
  destruct (create_then_delete w (req "A")) as (_ & Ha & _).
  - repeat split; discriminate.
  - apply (bool_decide_unpack _). vm_compute. exact I.
  - exact Ha.
Defined.

Lemma lookup_id_skip (j : Z) (l1 l2 : list Article) (a : Article) :
  ID a <> j -> lookup_id j (l1 ++ a :: l2) = lookup_id j (l1 ++ l2).
Proof.
  intros Hne. rewrite !lookup_id_app, lookup_id_cons.
  now rewrite (proj2 (Z.eqb_neq _ _) Hne).
Qed.

Lemma serve_lookup (r : Request) (w : World) (j : Z) :
  leaves_alone r w j ->
  lookup_id j (articles (snd (serve r w))) = lookup_id j (articles w).
Proof.
  intros Hj.
  destruct r as [| |[id|]|[a|]|[id|] [u|]|[id|]]; cbn [serve leaves_alone] in *.
  - reflexivity.
  - now rewrite getAllArticles_eq.
  - now rewrite getArticle_eq.
  - reflexivity.
  - destruct (valid_dec a) as [Hv|Hm].
    + rewrite (createArticle_valid w a Hv). cbn [snd articles].
      rewrite lookup_id_app, lookup_id_cons. cbn [stamped ID].
      rewrite (proj2 (Z.eqb_neq (nextID w) j)) by congruence.
      now destruct (lookup_id j (articles w)).
    + now rewrite (createArticle_invalid w a Hm).
  - reflexivity.
  - assert (Hne : id <> j) by congruence.
    destruct (range_find_cases id (articles w))
      as [[Hf _]|(l1 & a & l2 & Hl & Hl1 & Ha)].
    + now rewrite (updateArticle_missing w id u Hf).
    + rewrite (updateArticle_found w id u a l1 l2 Hl Hl1 Ha).
      cbn [snd articles]. rewrite Hl.
      rewrite !lookup_id_skip; [reflexivity|congruence|cbn; congruence].
  - reflexivity.
  - reflexivity.
  - reflexivity.
  - assert (Hne : id <> j) by congruence.
    destruct (range_find_cases id (articles w))
      as [[Hf _]|(l1 & a & l2 & Hl & Hl1 & Ha)].
    + now rewrite (deleteArticle_missing w id Hf).
    + rewrite (deleteArticle_first w id a l1 l2 Hl Hl1 Ha).
      cbn [snd articles]. rewrite Hl.
      rewrite lookup_id_skip; [reflexivity|congruence].
  - reflexivity.
Qed.

(** X7: a request does not change what Get answers for any other id: Get of
    [j] gives the same answer before and after an Update or Delete of a
    different id, after a Create that hands out a different id, and after
    any read. *)
Theorem get_unaffected (r : Request) (w : World) (j : Z) :
  leaves_alone r w j ->
  fst (getArticle (Some j) (snd (serve r w))) = fst (getArticle (Some j) w).
Proof.
  intros Hj. rewrite !getArticle_eq. cbn [fst].
  now rewrite (serve_lookup r w j Hj).
Qed.

Lemma get_unaffected_witness :
  let w := world_of (sampleArticles 0 0 0 0 0 0) 4 in
  fst (getArticle (Some 3) (snd (serve (DeleteArticleAt (Some 2)) w)))
  = fst (getArticle (Some 3) w).
Proof.
  intros w. apply (get_unaffected (DeleteArticleAt (Some 2)) w 3).
  cbn. discriminate.
Defined.

(** X8: after a successful Update of an id, Get of that id answers with the
    article that Update returned. *)
Theorem update_then_get (w : World) (id : Z) (u art : Article) :
  fst (updateArticle (Some id) (Some u) w) =
    HttpJSON StatusOK
      (mkResponse "Article updated successfully" (OneArticle art) "") ->
  fst (getArticle (Some id) (snd (updateArticle (Some id) (Some u) w))) =
    HttpJSON StatusOK
      (mkResponse "Article retrieved successfully" (OneArticle art) "").
Proof.
  destruct (range_find_cases id (articles w))
    as [[Hf _]|(l1 & a & l2 & Hl & Hl1 & Ha)].
  - rewrite (updateArticle_missing w id u Hf). discriminate.
  - rewrite (updateArticle_found w id u a l1 l2 Hl Hl1 Ha). cbn [fst snd].
    intros [= <-]. rewrite getArticle_eq. cbn [fst articles].
    rewrite (proj2 (lookup_id_Some id _ (updated w u a))); [reflexivity|].
    exists l1, l2. auto.
Qed.

Lemma update_then_get_witness :
  fst (getArticle (Some 2)
         (snd (updateArticle (Some 2) (Some (mkArticle 0 "T" "" "" 0 0))
                 (world_of [mkArticle 1 "A" "d" "c" 5 5;
                            mkArticle 2 "B" "e" "f" 6 6] 3)))) =
    HttpJSON StatusOK
      (mkResponse "Article retrieved successfully"
         (OneArticle (mkArticle 2 "T" "e" "f" 6 0)) "").
Proof.
  apply (update_then_get _ 2 (mkArticle 0 "T" "" "" 0 0)). reflexivity.
Defined.

(** ** Addressing by id when ids are unique *)

Lemma unique_first (l : list Article) (i : nat) (a : Article) :
  NoDup (ID <$> l) -> l !! i = Some a ->
  l = take i l ++ a :: drop (S i) l /\
  Forall (fun b => ID b <> ID a) (take i l) /\
  length (take i l) = i.
Proof.
  intros Hnd Hi.
  pose proof (take_drop_middle l i a Hi) as Hl.
  split; [now rewrite Hl|]. split.
  - rewrite <- Hl, fmap_app, fmap_cons in Hnd.
    apply NoDup_app in Hnd as (_ & Hdisj & _).
    apply Forall_forall. intros b Hb Heq.
    apply (Hdisj (ID b)); [now apply list_elem_of_fmap_2|].
    rewrite Heq. apply list_elem_of_here.
  - apply length_take_le. apply lookup_lt_Some in Hi. lia.
Qed.

(** X9: in a collection whose ids are unique, the id of the article at any
    position addresses exactly that position: Get returns that article,
    Delete removes that position and no other, and Update rewrites that
    position and no other. *)
Theorem unique_ids_address (w : World) (i : nat) (a : Article) :
  unique_ids w ->
  articles w !! i = Some a ->
  fst (getArticle (Some (ID a)) w) =
    HttpJSON StatusOK
      (mkResponse "Article retrieved successfully" (OneArticle a) "") /\
  articles (snd (deleteArticle (Some (ID a)) w)) = delete i (articles w) /\
  (forall u,
     articles (snd (updateArticle (Some (ID a)) (Some u) w))
     = <[i := updated w u a]> (articles w)).
Proof.
  intros Huniq Hi.
  destruct (unique_first (articles w) i a Huniq Hi) as (Hl & Hl1 & Hlen).
  split; [|split].
  - rewrite getArticle_eq. cbn [fst].
    rewrite (proj2 (lookup_id_Some (ID a) _ a)); [reflexivity|].
    exists (take i (articles w)), (drop (S i) (articles w)). auto.
  - rewrite (deleteArticle_first w (ID a) a _ _ Hl Hl1 eq_refl).
    cbn [snd articles]. now rewrite delete_take_drop.
  - intros u.
    rewrite (updateArticle_found w (ID a) u a _ _ Hl Hl1 eq_refl).
    cbn [snd articles]. rewrite insert_take_drop; [reflexivity|].
    now apply lookup_lt_Some in Hi.
Qed.

Lemma unique_ids_address_witness :
  let w := world_of (sampleArticles 0 0 0 0 0 0) 4 in
  articles (snd (deleteArticle (Some 2) w)) = delete 1%nat (articles w).
Proof.
  intros w.
  destruct (unique_ids_address w 1
              (mkArticle 2 "Building REST APIs with Go"
                 "A comprehensive guide to creating REST APIs in Go"
                 "REST APIs are a fundamental part of modern web development. Go provides excellent support for building fast and efficient web services with its built-in net/http package and third-party routers like Gorilla Mux."
                 (time_Add 0 (-12 * Hour)) (time_Add 0 (-12 * Hour))))
    as (_ & Hd & _).
  - apply (bool_decide_unpack _). vm_compute. exact I.
  - reflexivity.
  - exact Hd.
Defined.

(** ** Sequences of arbitrary requests *)

Lemma serve_all_cons (r : Request) (rest : list Request) (w : World) :
  serve_all (r :: rest) w =
    (fst (serve r w) :: fst (serve_all rest (snd (serve r w))),
     snd (serve_all rest (snd (serve r w)))).
Proof.
  cbn [serve_all]. unfold bind, ret.
  destruct (serve r w) as [out w1]. cbn [fst snd].
  now destruct (serve_all rest w1).
Qed.

(** One request either keeps the counter and leaves a subsequence of the
    ids, or hands out the counter as a new last id and advances it. *)
Lemma serve_step (r : Request) (w : World) :
  (nextID (snd (serve r w)) = nextID w /\
   sublist (ID <$> articles (snd (serve r w))) (ID <$> articles w)) \/
  (nextID (snd (serve r w)) = wrap (nextID w + 1) /\
   ID <$> articles (snd (serve r w)) = (ID <$> articles w) ++ [nextID w]).
Proof.
  destruct r as [| |[id|]|[a|]|[id|] [u|]|[id|]]; cbn [serve].
  - left. split; reflexivity.
  - left. rewrite getAllArticles_eq. split; reflexivity.
  - left. rewrite getArticle_eq. split; reflexivity.
  - left. split; reflexivity.
  - destruct (valid_dec a) as [Hv|Hm].
    + right. rewrite (createArticle_valid w a Hv). cbn [snd articles nextID].
      split; [reflexivity|]. now rewrite fmap_app.
    + left. rewrite (createArticle_invalid w a Hm). split; reflexivity.
  - left. split; reflexivity.
  - left. destruct (update_ids_eq w id u) as [Hid Hn].
    rewrite Hid, Hn. split; reflexivity.
  - left. split; reflexivity.
  - left. split; reflexivity.
  - left. split; reflexivity.
  - left.
    destruct (range_find_cases id (articles w))
      as [[Hf _]|(l1 & a & l2 & Hl & Hl1 & Ha)].
    + rewrite (deleteArticle_missing w id Hf). split; reflexivity.
    + rewrite (deleteArticle_first w id a l1 l2 Hl Hl1 Ha).
      cbn [snd articles nextID]. split; [reflexivity|].
      rewrite Hl. apply fmap_sublist.
      apply sublist_app; [reflexivity|]. now apply sublist_cons.
  - left. split; reflexivity.
Qed.

(** X10: serving any sequence of requests, of any of the six routes, from a
    store whose counter is above every id and whose ids are unique keeps
    both properties, as long as the counter cannot pass the largest int;
    the counter never decreases and advances by at most one per request. *)
Theorem serve_all_invariant (reqs : list Request) (w : World) :
  counter_inv w -> unique_ids w ->
  in_range (nextID w) ->
  nextID w + Z.of_nat (length reqs) <= int_max ->
  let w' := snd (serve_all reqs w) in
  counter_inv w' /\ unique_ids w' /\
  nextID w <= nextID w' <= nextID w + Z.of_nat (length reqs).
Proof.
  cbn zeta. revert w.
  induction reqs as [|r rest IH]; intros w Hinv Huniq Hr Hmax.
  - cbn. repeat split; try assumption; lia.
  - rewrite serve_all_cons. cbn [snd length] in *.
    specialize (IH (snd (serve r w))).
    assert (Hids : Forall (fun i => i < nextID w) (ID <$> articles w))
      by (apply (Forall_fmap ID (fun i => i < nextID w)); exact Hinv).
    destruct (serve_step r w) as [[Hn Hsub]|[Hn Happ]].
    + destruct IH as (Hi & Hu & Hb).
      * unfold counter_inv.
        apply (Forall_fmap ID (fun i => i < nextID (snd (serve r w)))).
        rewrite Hn. exact (Forall_sublist _ _ _ Hsub Hids).
      * exact (sublist_NoDup _ _ Huniq Hsub).
      * now rewrite Hn.
      * rewrite Hn. lia.
      * rewrite Hn in Hb. repeat split; try assumption; lia.
    + rewrite wrap_succ in Hn by (unfold in_range in *; lia).
      destruct IH as (Hi & Hu & Hb).
      * unfold counter_inv.
        apply (Forall_fmap ID (fun i => i < nextID (snd (serve r w)))).
        rewrite Hn, Happ. apply Forall_app. split.
        -- eapply Forall_impl; [exact Hids|]. cbn. intros; lia.
        -- repeat constructor. lia.
      * unfold unique_ids. rewrite Happ.
        apply NoDup_app. split; [exact Huniq|]. split.
        -- intros i Hi Hin. apply list_elem_of_singleton in Hin. subst i.
           rewrite Forall_forall in Hids. specialize (Hids _ Hi). lia.
        -- apply NoDup_singleton.
      * rewrite Hn. unfold in_range, int_min in *. lia.
      * rewrite Hn. lia.
      * rewrite Hn in Hb. repeat split; try assumption; lia.
Qed.

Lemma serve_all_invariant_witness :
  let w := world_of (sampleArticles 0 0 0 0 0 0) 4 in
  let reqs := [PostArticle (Some (req "A")); DeleteArticleAt (Some 2);
               PutArticle (Some 1) (Some (req "")); GetArticles] in
  counter_inv (snd (serve_all reqs w)) /\ unique_ids (snd (serve_all reqs w)).
Proof.
  intros w reqs.
  destruct (serve_all_invariant reqs w) as (Hi & Hu & _).
  - repeat constructor.
  - apply (bool_decide_unpack _). vm_compute. exact I.
  - split; vm_compute; discriminate.
  - vm_compute; discriminate.
  - split; assumption.
Defined.

(** ** Reads *)

Lemma read_step (r : Request) (w : World) :
  is_read r = true ->
  exists evs,
    snd (serve r w) =
      mkWorld (articles w) (nextID w) (clock w) (ticks w) (disk w)
        (trace w ++ evs) /\
    Forall (fun e => e = EvRLock \/ e = EvRUnlock) evs.
Proof.
  destruct r as [| |[id|]|[a|]|[id|] [u|]|[id|]]; cbn [serve is_read];
    try discriminate; intros _.
  - exists []. destruct w. cbn. rewrite app_nil_r. split; [reflexivity|constructor].
  - exists [EvRLock; EvRUnlock]. rewrite getAllArticles_eq.
    split; [reflexivity|].
    constructor; [left; reflexivity|constructor; [right; reflexivity|constructor]].
  - exists [EvRLock; EvRUnlock]. rewrite getArticle_eq.
    split; [reflexivity|].
    constructor; [left; reflexivity|constructor; [right; reflexivity|constructor]].
  - exists []. destruct w. cbn. rewrite app_nil_r. split; [reflexivity|constructor].
Qed.

(** X11: a sequence of reads (the welcome page, List, Get) leaves the
    collection, the counter, the clock and the data file as they are, and
    the only events it adds to the trace are acquisitions and releases of
    the read lock: reads never take the write lock and never dispatch a
    save. *)
Theorem reads_change_nothing (reqs : list Request) (w : World) :
  Forall (fun r => is_read r = true) reqs ->
  same_store (snd (serve_all reqs w)) w /\
  clock (snd (serve_all reqs w)) = clock w /\
  exists evs,
    trace (snd (serve_all reqs w)) = trace w ++ evs /\
    Forall (fun e => e = EvRLock \/ e = EvRUnlock) evs.
Proof.
  revert w. induction reqs as [|r rest IH]; intros w Hall.
  - cbn. split; [unfold same_store; auto|]. split; [reflexivity|].
    exists []. split; [now rewrite app_nil_r|constructor].
  - apply Forall_cons in Hall as [Hr Hrest].
    rewrite serve_all_cons. cbn [snd].
    destruct (read_step r w Hr) as (evs1 & Hw1 & He1). rewrite Hw1.
    destruct (IH (mkWorld (articles w) (nextID w) (clock w) (ticks w) (disk w)
                    (trace w ++ evs1)) Hrest)
      as ((Ha & Hn & Ht & Hd) & Hc & evs2 & Htr & He2).
    cbn [articles nextID clock ticks disk trace] in *.
    split; [unfold same_store; auto|]. split; [assumption|].
    exists (evs1 ++ evs2). rewrite Htr, app_assoc.
    split; [reflexivity|]. now apply Forall_app.
Qed.

Lemma reads_change_nothing_witness :
  let w := world_of (sampleArticles 0 0 0 0 0 0) 4 in
  same_store
    (snd (serve_all [GetArticles; GetArticleAt (Some 2); GetArticleAt None;
                     GetHome] w)) w.
Proof.
  intros w.
  apply (reads_change_nothing
           [GetArticles; GetArticleAt (Some 2); GetArticleAt None; GetHome] w).
  repeat constructor.
Defined.

(** ** Persistence and start-up *)

Lemma rw_run_app (m : RWMutex) (e1 e2 : list Event) :
  rw_run m (e1 ++ e2) =
    match rw_run m e1 with
    | Some m' => rw_run m' e2
    | None => None
    end.
Proof.
  revert m. induction e1 as [|e e1 IH]; intros m; cbn [rw_run app];
    [reflexivity|].
  destruct (rw_step m e); [apply IH|reflexivity].
Qed.

Lemma balanced_app (e1 e2 : list Event) :
  balanced e1 -> balanced e2 -> balanced (e1 ++ e2).
Proof. unfold balanced. intros H1 H2. now rewrite rw_run_app, H1. Qed.

Section Startup.

Variable gob_encode : Snapshot -> option Bytes.
Variable gob_decode : Bytes -> option Snapshot.

Lemma loadArticles_cases (w : World) :
  (load_fails gob_decode w /\
   exists e evs,
     loadArticles gob_decode w =
       (Some e,
        mkWorld (articles w) (nextID w) (clock w) (ticks w) (disk w)
          (trace w ++ evs)) /\
     (evs = [] \/ evs = [EvLock; EvUnlock])) \/
  (exists b data,
     dataFile (disk w) = File b /\ gob_decode b = Some data /\
     loadArticles gob_decode w =
       (None,
        mkWorld (Articles data) (NextID data) (clock w) (ticks w) (disk w)
          (trace w ++ [EvLock; EvUnlock]))).
Proof.
  destruct w as [l n c t [f ok] tr]. unfold load_fails. cbn [disk dataFile].
  unfold loadArticles, os_Open. unfold_monad.
  destruct f as [| |b].
  - left. split; [auto|]. exists ErrOpen, []. rewrite app_nil_r. auto.
  - left. split; [auto|]. exists ErrOpen, []. rewrite app_nil_r. auto.
  - destruct (gob_decode b) as [data|] eqn:Hd; cbn.
    + right. exists b, data. rewrite <- app_assoc. auto.
    + left. split; [eauto|]. exists ErrDecode, [EvLock; EvUnlock].
      rewrite <- app_assoc. auto.
Qed.

Lemma saveArticles_cases (w : World) :
  (create_ok (disk w) = false /\
   saveArticles gob_encode w = (Some ErrCreate, w)) \/
  (create_ok (disk w) = true /\
   exists e d,
     saveArticles gob_encode w =
       (e,
        mkWorld (articles w) (nextID w) (clock w) (ticks w) d
          (trace w ++ [EvRLock; EvRUnlock])) /\
     match gob_encode (mkSnapshot (articles w) (nextID w)) with
     | Some b => e = None /\ d = mkDisk (File b) true
     | None => e = Some ErrEncode
     end).
Proof.
  destruct w as [l n c t [f ok] tr]. cbn [disk create_ok articles nextID].
  unfold saveArticles, os_Create, file_Write. unfold_monad.
  destruct ok; cbn; [right|left; auto].
  split; [reflexivity|].
  destruct (gob_encode (mkSnapshot l n)) as [b|]; cbn;
    rewrite <- app_assoc; eauto.
Qed.

(** X12: loading is all or nothing. It fails exactly when the data file is
    missing, unreadable or does not decode, and a failed load leaves the
    collection and the counter as they were; a load that succeeds replaces
    both by what the file decodes to, whatever the store held before. In
    neither case is the file or the clock touched. *)
Theorem load_all_or_nothing (w : World) :
  let err := fst (loadArticles gob_decode w) in
  let w' := snd (loadArticles gob_decode w) in
  (err <> None <-> load_fails gob_decode w) /\
  (err <> None -> same_store w' w) /\
  (err = None ->
   exists b data,
     dataFile (disk w) = File b /\ gob_decode b = Some data /\
     articles w' = Articles data /\ nextID w' = NextID data) /\
  disk w' = disk w /\ ticks w' = ticks w.
Proof.
  cbn zeta.
  destruct (loadArticles_cases w)
    as [(Hf & e & evs & -> & _)|(b & data & Hfile & Hd & ->)];
    cbn [fst snd articles nextID disk ticks].
  - split; [split; [auto|discriminate]|].
    split; [intros _; repeat split|]. split; [discriminate|auto].
  - split.
    + split; [congruence|]. intros [H|[H|(b' & H & Hn)]]; congruence.
    + split; [congruence|]. split; [|auto]. intros _. exists b, data. auto.
Qed.

(** X13: a save never changes the collection, the counter or the clock. It
    reports no error exactly when the file can be created and the snapshot
    encoded, and the file then holds the encoding of the collection and the
    counter as they are at the save; when the file cannot be created the
    save reports the error and leaves the world untouched. *)
Theorem save_outcomes (w : World) :
  let err := fst (saveArticles gob_encode w) in
  let w' := snd (saveArticles gob_encode w) in
  (articles w' = articles w /\ nextID w' = nextID w /\ ticks w' = ticks w) /\
  (err = None <->
   create_ok (disk w) = true /\
   exists b, gob_encode (mkSnapshot (articles w) (nextID w)) = Some b) /\
  (forall b,
     create_ok (disk w) = true ->
     gob_encode (mkSnapshot (articles w) (nextID w)) = Some b ->
     dataFile (disk w') = File b) /\
  (create_ok (disk w) = false -> err = Some ErrCreate /\ w' = w).
Proof.
  cbn zeta.
  destruct (saveArticles_cases w) as [[Hc ->]|(Hc & e & d & -> & He)];
    cbn [fst snd articles nextID ticks disk].
  - split; [auto|]. split; [split; [discriminate|intros [? _]; congruence]|].
    split; [intros; congruence|auto].
  - split; [auto|]. split; [|split; [|intros; congruence]].
    + destruct (gob_encode (mkSnapshot (articles w) (nextID w))) as [b|].
      * destruct He as [-> _]. split; [eauto|reflexivity].
      * subst e. split; [discriminate|]. intros [_ [b Hb]]. discriminate.
    + intros b _ Hb. rewrite Hb in He. destruct He as [_ ->]. reflexivity.
Qed.

Lemma initDatabase_cases (w : World) :
  snd (initDatabase gob_encode gob_decode w) =
    match fst (loadArticles gob_decode w) with
    | Some _ =>
        snd (saveArticles gob_encode
               (snd (createSampleData (snd (loadArticles gob_decode w)))))
    | None => snd (loadArticles gob_decode w)
    end.
Proof.
  unfold initDatabase. unfold bind at 1.
  destruct (loadArticles gob_decode w) as [[e|] w1]; cbn [fst snd];
    [|reflexivity].
  unfold bind, ret.
  destruct (createSampleData w1) as [u w2]. cbn [snd].
  now destruct (saveArticles gob_encode w2).
Qed.

(** X14: when the data file decodes, start-up installs exactly what it
    holds: no sample article is created, the clock is not read, and the file
    is neither truncated nor rewritten. *)
Theorem init_keeps_existing_data (w : World) (b : Bytes) (data : Snapshot) :
  dataFile (disk w) = File b ->
  gob_decode b = Some data ->
  let w' := snd (initDatabase gob_encode gob_decode w) in
  articles w' = Articles data /\ nextID w' = NextID data /\
  disk w' = disk w /\ ticks w' = ticks w /\
  emitted (initDatabase gob_encode gob_decode) w = [EvLock; EvUnlock].
Proof.
  intros Hfile Hd. cbn zeta. unfold emitted.
  rewrite initDatabase_cases, (loadArticles_ok gob_decode w b data Hfile Hd).
  cbn [fst snd articles nextID disk ticks trace].
  repeat split. apply drop_app_length.
Qed.

Lemma saveArticles_balanced (w : World) :
  exists evs,
    trace (snd (saveArticles gob_encode w)) = trace w ++ evs /\
    balanced evs /\ ~ (EvGoSave ∈ evs).
Proof.
  destruct (saveArticles_cases w) as [[_ ->]|(_ & e & d & -> & _)]; cbn [snd trace].
  - exists []. rewrite app_nil_r. repeat split. intros H. inversion H.
  - exists [EvRLock; EvRUnlock]. repeat split. intros Hin.
    repeat (apply elem_of_cons in Hin as [Hin|Hin]; [discriminate|]).
    inversion Hin.
Qed.

(** X15: start-up never asks for the lock while it holds it and holds none
    when it returns: in every case (file loaded, or load failed, sample
    data created and saved, with or without a writable file) the lock
    operations of [initDatabase], replayed in order on a free mutex, all
    proceed and leave the mutex free; and start-up dispatches no
    asynchronous save. *)
Theorem startup_lock_discipline (w : World) :
  balanced (emitted (initDatabase gob_encode gob_decode) w) /\
  ~ (EvGoSave ∈ emitted (initDatabase gob_encode gob_decode) w) /\
  trace (snd (initDatabase gob_encode gob_decode w))
    = trace w ++ emitted (initDatabase gob_encode gob_decode) w.
Proof.
  assert (H : exists evs,
            trace (snd (initDatabase gob_encode gob_decode w)) = trace w ++ evs /\
            balanced evs /\ ~ (EvGoSave ∈ evs)).
  { rewrite initDatabase_cases.
    destruct (loadArticles_cases w)
      as [(_ & e & evs & -> & Hevs)|(b & data & _ & _ & ->)]; cbn [fst snd].
    - rewrite createSampleData_eq. cbn [snd].
      match goal with
      | |- context [saveArticles gob_encode ?x] =>
          destruct (saveArticles_balanced x) as (evs3 & Htr & Hb3 & Hno3)
      end.
      rewrite Htr. cbn [trace].
      exists (evs ++ [EvLock; EvUnlock] ++ evs3).
      rewrite <- !app_assoc. split; [reflexivity|]. split.
      + apply balanced_app; [destruct Hevs as [->| ->]; reflexivity|].
        apply (balanced_app [EvLock; EvUnlock]); [reflexivity|exact Hb3].
      + intros Hin. apply elem_of_app in Hin as [Hin|Hin].
        * destruct Hevs as [->| ->]; [inversion Hin|].
          repeat (apply elem_of_cons in Hin as [Hin|Hin]; [discriminate|]).
          inversion Hin.
        * apply elem_of_app in Hin as [Hin|Hin]; [|exact (Hno3 Hin)].
          repeat (apply elem_of_cons in Hin as [Hin|Hin]; [discriminate|]).
          inversion Hin.
    - cbn [trace]. exists [EvLock; EvUnlock].
      split; [reflexivity|]. split; [reflexivity|].
      intros Hin.
      repeat (apply elem_of_cons in Hin as [Hin|Hin]; [discriminate|]).
      inversion Hin. }
  destruct H as (evs & Htr & Hb & Hno).
  rewrite (emitted_app _ _ _ Htr). auto.
Qed.

End Startup.

Lemma init_keeps_existing_data_witness :
  let data := mkSnapshot [mkArticle 7 "A" "d" "c" 5 5] 8 in
  let w := mkWorld [] 1 tick_clock 0
             (mkDisk (File (RefCodec.enc_articles (Articles data)
                              ++ RefCodec.enc_Z (NextID data))) true) [] in
  articles (snd (initDatabase RefCodec.encode RefCodec.decode w))
    = [mkArticle 7 "A" "d" "c" 5 5] /\
  nextID (snd (initDatabase RefCodec.encode RefCodec.decode w)) = 8.
Proof.
  intros data w.
  destruct (init_keeps_existing_data RefCodec.encode RefCodec.decode w
              (RefCodec.enc_articles (Articles data) ++ RefCodec.enc_Z (NextID data))
              data)
    as (Ha & Hn & _).
  - reflexivity.
  - apply ref_roundtrip. reflexivity.
  - split; assumption.
Defined.

(** ** The demo program and the server *)

Lemma demo_createArticle_eq (w : World) (title desc content : string) :
  Demo.createArticle title desc content w =
    (mkArticle (nextID w) title desc content
       (clock w (ticks w)) (clock w (S (ticks w))),
     mkWorld
       (articles w ++
        [mkArticle (nextID w) title desc content
           (clock w (ticks w)) (clock w (S (ticks w)))])
       (wrap (nextID w + 1)) (clock w) (S (S (ticks w))) (disk w) (trace w)).
Proof. destruct w as [l n c t d tr]. reflexivity. Qed.

Lemma demo_updateArticle_found (w : World) (id : Z) (u a : Article)
    (l1 l2 : list Article) :
  articles w = l1 ++ a :: l2 ->
  Forall (fun b => ID b <> id) l1 -> ID a = id ->
  Demo.updateArticle id (Title u) (Desc u) (Content u) w =
    (Some (updated w u a),
     mkWorld (l1 ++ updated w u a :: l2) (nextID w) (clock w) (S (ticks w))
       (disk w) (trace w)).
Proof.
  intros Hl Hl1 Ha. destruct w as [l n c t d tr]. cbn in *. subst l.
  unfold Demo.updateArticle. unfold_monad.
  rewrite (range_find_first id l1 l2 a 0 Hl1 Ha). cbn.
  unfold updated. destruct a as [i ti de co cr up]. cbn.
  destruct (String.eqb (Title u) ""), (String.eqb (Desc u) ""),
    (String.eqb (Content u) "");
    cbn; rewrite ?alter_middle; cbn;
    rewrite list_lookup_middle by reflexivity; reflexivity.
Qed.

Lemma demo_updateArticle_missing (w : World) (id : Z) (t d c : string) :
  range_find id (articles w) 0 = None ->
  Demo.updateArticle id t d c w = (None, w).
Proof.
  intros H. destruct w as [l n cl ti di tr]. cbn in *.
  unfold Demo.updateArticle. unfold_monad. now rewrite H.
Qed.

Lemma demo_deleteArticle_first (w : World) (id : Z) (a : Article)
    (l1 l2 : list Article) :
  articles w = l1 ++ a :: l2 ->
  Forall (fun b => ID b <> id) l1 -> ID a = id ->
  Demo.deleteArticle id w =
    (true,
     mkWorld (l1 ++ l2) (nextID w) (clock w) (ticks w) (disk w) (trace w)).
Proof.
  intros Hl Hl1 Ha. destruct w as [l n c t d tr]. cbn in *. subst l.
  unfold Demo.deleteArticle. unfold_monad.
  rewrite (range_find_first id l1 l2 a 0 Hl1 Ha). cbn.
  now rewrite <- delete_take_drop, delete_middle.
Qed.

Lemma demo_deleteArticle_missing (w : World) (id : Z) :
  range_find id (articles w) 0 = None ->
  Demo.deleteArticle id w = (false, w).
Proof.
  intros H. destruct w as [l n c t d tr]. cbn in *.
  unfold Demo.deleteArticle. unfold_monad. now rewrite H.
Qed.

Lemma demo_getArticleByID_eq (w : World) (id : Z) :
  Demo.getArticleByID id w = (lookup_id id (articles w), w).
Proof.
  destruct w as [l n c t d tr]. unfold Demo.getArticleByID, lookup_id.
  unfold_monad. now destruct (range_find id l 0) as [[i a]|].
Qed.

(** X16: the demo's createArticle stores whatever it is given, empty fields
    included: it always appends one article and advances the counter. The
    server's Create does the same to the collection, the counter and the
    clock, and returns the same article, exactly for the bodies that pass
    its validation; for the others it leaves the store as it was. *)
Theorem demo_create_agrees (w : World) (a : Article) :
  let d := Demo.createArticle (Title a) (Desc a) (Content a) w in
  let s := createArticle (Some a) w in
  (articles (snd d) = articles w ++ [fst d] /\
   nextID (snd d) = wrap (nextID w + 1) /\
   ID (fst d) = nextID w) /\
  (valid a ->
   fst s = HttpJSON StatusCreated
             (mkResponse "Article created successfully" (OneArticle (fst d)) "") /\
   same_store (snd s) (snd d)) /\
  (~ valid a -> fst s = ValidationError /\ snd s = w).
Proof.
  cbn zeta. rewrite demo_createArticle_eq. cbn [fst snd articles nextID ID].
  split; [auto|]. split.
  - intros Hv. rewrite (createArticle_valid w a Hv). cbn [fst snd].
    split; [reflexivity|]. repeat split.
  - intros Hnv. destruct (valid_dec a) as [Hv|Hm]; [contradiction|].
    rewrite (createArticle_invalid w a Hm). auto.
Qed.

Lemma demo_create_agrees_witness :
  let w := world_of [] 1 in
  same_store (snd (createArticle (Some (req "A")) w))
    (snd (Demo.createArticle "A" "d" "c" w)).
Proof.
  intros w.
  destruct (demo_create_agrees w (req "A")) as (_ & H & _).
  apply H. repeat split; discriminate.
Defined.

(** X17: on the collection, the counter and the clock, the server's Update,
    Delete and Get do what the demo's updateArticle, deleteArticle and
    getArticleByID do, and answer accordingly: success with the article the
    demo returns, NotFound where the demo returns nil or false. *)
Theorem demo_agrees (w : World) (id : Z) (u : Article) :
  (fst (updateArticle (Some id) (Some u) w) =
     match fst (Demo.updateArticle id (Title u) (Desc u) (Content u) w) with
     | Some art =>
         HttpJSON StatusOK
           (mkResponse "Article updated successfully" (OneArticle art) "")
     | None => NotFound
     end /\
   same_store (snd (updateArticle (Some id) (Some u) w))
     (snd (Demo.updateArticle id (Title u) (Desc u) (Content u) w))) /\
  (succeeded (fst (deleteArticle (Some id) w)) = fst (Demo.deleteArticle id w) /\
   same_store (snd (deleteArticle (Some id) w)) (snd (Demo.deleteArticle id w))) /\
  (fst (getArticle (Some id) w) =
     match fst (Demo.getArticleByID id w) with
     | Some art =>
         HttpJSON StatusOK
           (mkResponse "Article retrieved successfully" (OneArticle art) "")
     | None => NotFound
     end /\
   same_store (snd (getArticle (Some id) w)) (snd (Demo.getArticleByID id w))) /\
  fst (getAllArticles w) =
    HttpJSON StatusOK
      (mkResponse "Articles retrieved successfully"
         (AllArticles (fst (Demo.getAllArticles w))) "").
Proof.
  split; [|split; [|split]].
  - destruct (range_find_cases id (articles w))
      as [[Hf _]|(l1 & a & l2 & Hl & Hl1 & Ha)].
    + rewrite (updateArticle_missing w id u Hf),
        (demo_updateArticle_missing w id _ _ _ Hf).
      split; [reflexivity|repeat split].
    + rewrite (updateArticle_found w id u a l1 l2 Hl Hl1 Ha),
        (demo_updateArticle_found w id u a l1 l2 Hl Hl1 Ha).
      split; [reflexivity|repeat split].
  - destruct (range_find_cases id (articles w))
      as [[Hf _]|(l1 & a & l2 & Hl & Hl1 & Ha)].
    + rewrite (deleteArticle_missing w id Hf),
        (demo_deleteArticle_missing w id Hf).
      split; [reflexivity|repeat split].
    + rewrite (deleteArticle_first w id a l1 l2 Hl Hl1 Ha),
        (demo_deleteArticle_first w id a l1 l2 Hl Hl1 Ha).
      split; [reflexivity|repeat split].
  - rewrite getArticle_eq, demo_getArticleByID_eq. cbn [fst snd].
    split; [|repeat split].
    now destruct (lookup_id id (articles w)).
  - now rewrite getAllArticles_eq.
Qed.

(** ** Status codes *)

(** X18: for a request that matches one of the six routes that
    [handleRequests] registers, the handler's response carries one of the
    four status codes 200, 201, 400 and 404; a handler answers with a JSON
    body exactly under 200 or 201; and 201 Created is the answer to a
    Create whose body passes the validation, and to nothing else. What the
    router itself answers to a request that matches no route is not
    covered. *)
Theorem status_classes (r : Request) (w : World) :
  (status (fst (serve r w)) = StatusOK \/
   status (fst (serve r w)) = StatusCreated \/
   status (fst (serve r w)) = StatusBadRequest \/
   status (fst (serve r w)) = StatusNotFound) /\
  (succeeded (fst (serve r w)) = true <->
   status (fst (serve r w)) = StatusOK \/
   status (fst (serve r w)) = StatusCreated) /\
  (status (fst (serve r w)) = StatusCreated <->
   exists a, r = PostArticle (Some a) /\ valid a).
Proof.
  assert (Hok : forall out : HttpOut,
            succeeded out = true -> status out = StatusOK ->
            (status out = StatusOK \/ status out = StatusCreated \/
             status out = StatusBadRequest \/ status out = StatusNotFound) /\
            (succeeded out = true <->
             status out = StatusOK \/ status out = StatusCreated)).
  { intros out Hs Hst. split; [auto|]. split; auto. }
  assert (Herr : forall out : HttpOut,
            succeeded out = false ->
            status out = StatusBadRequest \/ status out = StatusNotFound ->
            (status out = StatusOK \/ status out = StatusCreated \/
             status out = StatusBadRequest \/ status out = StatusNotFound) /\
            (succeeded out = true <->
             status out = StatusOK \/ status out = StatusCreated)).
  { intros out Hs Hst. split; [tauto|]. rewrite Hs.
    split; [discriminate|].
    unfold StatusOK, StatusCreated, StatusBadRequest, StatusNotFound in *.
    intros [H|H]; destruct Hst as [H'|H']; rewrite H in H'; discriminate. }
  assert (Hnot : forall out : HttpOut,
            status out <> StatusCreated ->
            forall P : Prop, (P -> False) ->
            (status out = StatusCreated <-> P)) by (intros; tauto).
  destruct r as [| |[id|]|[a|]|[id|] [u|]|[id|]]; cbn [serve].
  - apply and_assoc. split; [apply Hok; reflexivity|].
    apply Hnot; [discriminate|]. intros (a & [=] & _).
  - rewrite getAllArticles_eq. apply and_assoc. split; [apply Hok; reflexivity|].
    apply Hnot; [discriminate|]. intros (a & [=] & _).
  - rewrite getArticle_eq. apply and_assoc. cbn [fst].
    destruct (lookup_id id (articles w)); cbn [found_response].
    + split; [apply Hok; reflexivity|].
      apply Hnot; [discriminate|]. intros (a' & [=] & _).
    + split; [apply Herr; [reflexivity|right; reflexivity]|].
      apply Hnot; [discriminate|]. intros (a' & [=] & _).
  - apply and_assoc. split; [apply Herr; [reflexivity|left; reflexivity]|].
    apply Hnot; [discriminate|]. intros (a & [=] & _).
  - destruct (valid_dec a) as [Hv|Hm].
    + rewrite (createArticle_valid w a Hv). cbn [fst status succeeded].
      split; [auto|]. split; [split; auto|].
      split; [intros _; exists a; auto|reflexivity].
    + rewrite (createArticle_invalid w a Hm). apply and_assoc.
      split; [apply Herr; [reflexivity|left; reflexivity]|].
      apply Hnot; [discriminate|]. intros (a' & [= <-] & Hv).
      unfold valid in Hv. tauto.
  - apply and_assoc. split; [apply Herr; [reflexivity|left; reflexivity]|].
    apply Hnot; [discriminate|]. intros (a & [=] & _).
  - apply and_assoc.
    destruct (range_find_cases id (articles w))
      as [[Hf _]|(l1 & a & l2 & Hl & Hl1 & Ha)].
    + rewrite (updateArticle_missing w id u Hf).
      split; [apply Herr; [reflexivity|right; reflexivity]|].
      apply Hnot; [discriminate|]. intros (a' & [=] & _).
    + rewrite (updateArticle_found w id u a l1 l2 Hl Hl1 Ha).
      split; [apply Hok; reflexivity|].
      apply Hnot; [discriminate|]. intros (a' & [=] & _).
  - apply and_assoc. split; [apply Herr; [reflexivity|left; reflexivity]|].
    apply Hnot; [discriminate|]. intros (a & [=] & _).
  - apply and_assoc. split; [apply Herr; [reflexivity|left; reflexivity]|].
    apply Hnot; [discriminate|]. intros (a & [=] & _).
  - apply and_assoc. split; [apply Herr; [reflexivity|left; reflexivity]|].
    apply Hnot; [discriminate|]. intros (a & [=] & _).
  - apply and_assoc.
    destruct (range_find_cases id (articles w))
      as [[Hf _]|(l1 & a & l2 & Hl & Hl1 & Ha)].
    + rewrite (deleteArticle_missing w id Hf).
      split; [apply Herr; [reflexivity|right; reflexivity]|].
      apply Hnot; [discriminate|]. intros (a' & [=] & _).
    + rewrite (deleteArticle_first w id a l1 l2 Hl Hl1 Ha).
      split; [apply Hok; reflexivity|].
      apply Hnot; [discriminate|]. intros (a' & [=] & _).
  - apply and_assoc. split; [apply Herr; [reflexivity|left; reflexivity]|].
    apply Hnot; [discriminate|]. intros (a & [=] & _).
Qed.
